(** * DanishLeague: the table engine of [src/App.jsx]

    The component [App] keeps a sheet in React state ([headers], [allData])
    and derives from it, on every render, the facet option lists, the
    filtered rows and the sorted rows; [parseGoogleSheetsDate] renders the
    cells of the "Birthday" column.  This file embeds those computations
    and the fragment of JavaScript they rely on, and states the properties
    of the engine against them.

    Conventions of the embedding.
    - A JavaScript string is a [string]; each character stands for one
      UTF-16 code unit in the range 0..255.  On that range the code-unit
      order used by [<] and by [Array.prototype.sort] is the code-point
      order, and [toLowerCase]/[trim] are the maps written out below.
    - A JavaScript number is its exact decimal value [m / 10^k] (or [NaN],
      or an infinity); the rounding of binary64 is not modelled, and the
      two zeros are one.  The embedding is exact on the whole numbers up
      to 2^53 and on their sums and products within that bound; what is
      stated below about the value of a number is stated there.
    - [toLowerCase] is the map of the code units below 256, one unit at a
      time; beyond them the language lower-cases by context, and no
      statement below relies on the lower-casing of a text being made of
      the lower-casings of its parts.
    - [Array.prototype.sort] is the order the language prescribes for a
      consistent comparator; for any other comparator the language leaves
      the order to the engine, for which [V8] has the procedure of one
      engine on short arrays.
    - An array is a list of slots, [None] being a hole of a sparse array.
    - A row object is a finite map from property names to values. *)

From Stdlib Require Import ZArith NArith String Ascii List Lia DecimalString.
From Stdlib Require Import Sorted.
From Stdlib Require OrderedTypeEx.
From stdpp Require Import gmap strings list.

Set Warnings "-clear-no-such-hyp".

Local Open Scope string_scope.
Local Open Scope list_scope.
Local Open Scope Z_scope.

(** ** Strings *)

Module JSString.

Definition code (c : ascii) : Z := Z.of_N (N_of_ascii c).

Definition in_range (lo hi : Z) (c : ascii) : bool :=
  (lo <=? code c) && (code c <=? hi).

(** WhiteSpace and LineTerminator code units below 256: TAB, LF, VT, FF,
    CR, SP and NBSP. *)
Definition isWhiteSpace (c : ascii) : bool :=
  in_range 9 13 c || (code c =? 32) || (code c =? 160).

(** Upper-case letters below 256 and their lower-case images: A-Z, and
    the Latin-1 letters 0xC0-0xDE without the multiplication sign. *)
Definition lowerChar (c : ascii) : ascii :=
  if in_range 65 90 c || in_range 192 214 c || in_range 216 222 c
  then ascii_of_N (N_of_ascii c + 32)
  else c.

(** [s.toLowerCase()] on a text of code units below 256, where it maps
    each unit by itself. *)
Fixpoint toLowerCase (s : string) : string :=
  match s with
  | EmptyString => EmptyString
  | String c s' => String (lowerChar c) (toLowerCase s')
  end.

Fixpoint trimStart (s : string) : string :=
  match s with
  | String c s' => if isWhiteSpace c then trimStart s' else s
  | EmptyString => EmptyString
  end.

Fixpoint trimEnd (s : string) : string :=
  match s with
  | String c s' =>
      match trimEnd s' with
      | EmptyString => if isWhiteSpace c then EmptyString else String c EmptyString
      | t => String c t
      end
  | EmptyString => EmptyString
  end.

Definition trim (s : string) : string := trimEnd (trimStart s).

(** [s.includes(sub)] *)
Fixpoint includes (s sub : string) : bool :=
  String.prefix sub s ||
  match s with
  | String _ s' => includes s' sub
  | EmptyString => false
  end.

(** [s.split(sep)[0]] for a one-character separator. *)
Fixpoint split_head (sep : ascii) (s : string) : string :=
  match s with
  | String c s' => if Ascii.eqb c sep then EmptyString else String c (split_head sep s')
  | EmptyString => EmptyString
  end.

(** [a < b] on two strings: lexicographic on code units. *)
Definition ltb (a b : string) : bool := String.ltb a b.

Fixpoint repeat0 (n : nat) : string :=
  match n with O => EmptyString | S n' => String "0"%char (repeat0 n') end.

Definition of_N (n : N) : string := NilZero.string_of_uint (N.to_uint n).

(** Decimal digits of [n], left-padded with zeros to [w] characters. *)
Definition padded (w : nat) (n : N) : string :=
  let d := of_N n in repeat0 (w - String.length d)%nat +:+ d.

End JSString.

(** ** Numbers *)

Module JSNumber.

(** [Fin m k] is the number [m / 10^k]. *)
Inductive number :=
| NaN
| Infinity (negative : bool)
| Fin (m : Z) (k : N).

Definition pow10 (k : N) : Z := 10 ^ Z.of_N k.

Definition of_Z (z : Z) : number := Fin z 0.

(** [m * 10^e] for an exponent of either sign. *)
Definition scaled (m e : Z) : number :=
  if e <? 0 then Fin m (Z.to_N (- e)) else Fin (m * 10 ^ e) 0.

Definition isNaN (x : number) : bool :=
  match x with NaN => true | _ => false end.

Definition isZero (x : number) : bool :=
  match x with Fin m _ => m =? 0 | _ => false end.

Definition sign (x : number) : Z :=
  match x with
  | NaN => 0
  | Infinity neg => if neg then -1 else 1
  | Fin m _ => Z.sgn m
  end.

(** Numeric order; [None] when an operand is [NaN]. *)
Definition compare (x y : number) : option comparison :=
  match x, y with
  | NaN, _ | _, NaN => None
  | Infinity a, Infinity b =>
      Some (if a then (if b then Eq else Lt) else (if b then Gt else Eq))
  | Infinity a, Fin _ _ => Some (if a then Lt else Gt)
  | Fin _ _, Infinity b => Some (if b then Gt else Lt)
  | Fin m1 k1, Fin m2 k2 => Some (m1 * pow10 k2 ?= m2 * pow10 k1)
  end.

Definition ltb (x y : number) : bool :=
  match compare x y with Some Lt => true | _ => false end.

Definition eqb (x y : number) : bool :=
  match compare x y with Some Eq => true | _ => false end.

(** [x * y], as the exact product.  Binary64 holds the product of two
    whole numbers exactly when it is at most 2^53; other products it may
    round. *)
Definition mul (x y : number) : number :=
  match x, y with
  | NaN, _ | _, NaN => NaN
  | Fin m1 k1, Fin m2 k2 => Fin (m1 * m2) (k1 + k2)
  | _, _ => match sign x * sign y with
            | 0 => NaN
            | Zpos _ => Infinity false
            | Zneg _ => Infinity true
            end
  end.

Definition add (x y : number) : number :=
  match x, y with
  | NaN, _ | _, NaN => NaN
  | Fin m1 k1, Fin m2 k2 => Fin (m1 * pow10 k2 + m2 * pow10 k1) (k1 + k2)
  | Infinity a, Infinity b => if Bool.eqb a b then Infinity a else NaN
  | Infinity a, Fin _ _ | Fin _ _, Infinity a => Infinity a
  end.

(** The integral part, rounding towards zero (ToIntegerOrInfinity on a
    finite number). *)
Definition truncate (m : Z) (k : N) : Z := Z.quot m (pow10 k).

(** *** StringToNumber *)

Definition digit_of (base : Z) (c : ascii) : option Z :=
  let n := JSString.code c in
  let d := if (48 <=? n) && (n <=? 57) then n - 48
           else if (97 <=? n) && (n <=? 122) then n - 87
           else if (65 <=? n) && (n <=? 90) then n - 55
           else base in
  if d <? base then Some d else None.

(** Reads the longest run of digits of [s]: their value on top of [acc],
    how many there were, and what follows them. *)
Fixpoint read_digits (base acc : Z) (cnt : N) (s : string) : Z * N * string :=
  match s with
  | String c s' =>
      match digit_of base c with
      | Some d => read_digits base (acc * base + d) (cnt + 1)%N s'
      | None => (acc, cnt, s)
      end
  | EmptyString => (acc, cnt, s)
  end.

(** NonDecimalIntegerLiteral without its two-character prefix. *)
Definition parse_radix (base : Z) (s : string) : number :=
  match read_digits base 0 0 s with
  | (v, cnt, EmptyString) => if (cnt =? 0)%N then NaN else of_Z v
  | _ => NaN
  end.

Definition read_sign (s : string) : Z * string :=
  match s with
  | String "+" s' => (1, s')
  | String "-" s' => (-1, s')
  | _ => (1, s)
  end.

(** ExponentPart of a decimal literal; the whole rest of the input must be
    consumed. *)
Definition parse_exponent (s : string) : option Z :=
  match s with
  | EmptyString => Some 0
  | String c s' =>
      if Ascii.eqb c "e" || Ascii.eqb c "E" then
        let (sg, r) := read_sign s' in
        match read_digits 10 0 0 r with
        | (v, cnt, EmptyString) => if (cnt =? 0)%N then None else Some (sg * v)
        | _ => None
        end
      else None
  end.

(** StrUnsignedDecimalLiteral other than [Infinity]: digits, an optional
    fraction, an optional exponent, with a digit before or after the dot. *)
Definition parse_unsigned (s : string) : number :=
  let '(ip, ni, r1) := read_digits 10 0 0 s in
  let '(m, nf, r2) :=
    match r1 with
    | String "." r => read_digits 10 ip 0 r
    | _ => (ip, 0%N, r1)
    end in
  if ((ni =? 0) && (nf =? 0))%N then NaN
  else match parse_exponent r2 with
       | Some e => scaled m (e - Z.of_N nf)
       | None => NaN
       end.

Definition negate (x : number) : number :=
  match x with
  | NaN => NaN
  | Infinity b => Infinity (negb b)
  | Fin m k => Fin (- m) k
  end.

Definition parse_trimmed (s : string) : number :=
  match s with
  | EmptyString => of_Z 0
  | String "0" (String "x" r) | String "0" (String "X" r) => parse_radix 16 r
  | String "0" (String "o" r) | String "0" (String "O" r) => parse_radix 8 r
  | String "0" (String "b" r) | String "0" (String "B" r) => parse_radix 2 r
  | _ =>
      let (sg, r) := read_sign s in
      let v := if String.eqb r "Infinity" then Infinity false else parse_unsigned r in
      if sg <? 0 then negate v else v
  end.

(** [Number(s)] for a string [s], as the exact value the text denotes.
    Binary64 holds a whole number up to 2^53 exactly; other values it may
    round, and beyond its range it yields an infinity or zero. *)
Definition ofString (s : string) : number := parse_trimmed (JSString.trim s).

(** *** Number::toString *)

(** The digits of [n] without its trailing zeros ([n] positive). *)
Definition significant (n : N) : string :=
  let fix strip (s : string) : string :=
    match s with
    | String c s' =>
        match strip s' with
        | EmptyString => if Ascii.eqb c "0" then EmptyString else String c EmptyString
        | t => String c t
        end
    | EmptyString => EmptyString
    end in
  strip (JSString.of_N n).

Definition takeS (n : nat) (s : string) : string := String.substring 0 n s.
Definition dropS (n : nat) (s : string) : string :=
  String.substring n (String.length s - n) s.

(** A positive [m / 10^k]: with [ds] its [kk] significant digits and
    [10^(n-1) <= m / 10^k < 10^n]. *)
Definition positiveToString (m : N) (k : N) : string :=
  let ds := significant m in
  let kk := Z.of_nat (String.length ds) in
  let n := Z.of_nat (String.length (JSString.of_N m)) - Z.of_N k in
  if (kk <=? n) && (n <=? 21) then
    ds +:+ JSString.repeat0 (Z.to_nat (n - kk))
  else if (0 <? n) && (n <=? 21) then
    takeS (Z.to_nat n) ds +:+ "." +:+ dropS (Z.to_nat n) ds
  else if (-6 <? n) && (n <=? 0) then
    "0." +:+ JSString.repeat0 (Z.to_nat (- n)) +:+ ds
  else
    let e := n - 1 in
    let es := (if e <? 0 then "-" else "+") +:+ JSString.of_N (Z.to_N (Z.abs e)) in
    if kk =? 1 then ds +:+ "e" +:+ es
    else takeS 1 ds +:+ "." +:+ dropS 1 ds +:+ "e" +:+ es.

Definition toString (x : number) : string :=
  match x with
  | NaN => "NaN"
  | Infinity neg => if neg then "-Infinity" else "Infinity"
  | Fin m k =>
      match m with
      | 0 => "0"
      | Zpos p => positiveToString (Npos p) k
      | Zneg p => "-" +:+ positiveToString (Npos p) k
      end
  end.

End JSNumber.

(** ** Values, arrays, objects and exceptions *)

Module JS.

Export JSNumber.

(** The primitive values, and [VObject] for the one object a row can
    yield: [Object.prototype], read through the property [__proto__]. *)
Inductive value :=
| VUndefined
| VNull
| VBool (b : bool)
| VNumber (n : number)
| VString (s : string)
| VObject.

Inductive exn := TypeError | RangeError.

Inductive result (A : Type) :=
| Ok (a : A)
| Throw (e : exn).
Arguments Ok {A} a.
Arguments Throw {A} e.

Definition bind {A B} (r : result A) (f : A -> result B) : result B :=
  match r with
  | Ok a => f a
  | Throw e => Throw e
  end.

#[global] Instance result_bind : MBind result := fun A B f r => bind r f.
#[global] Instance result_ret : MRet result := @Ok.

Definition ToBoolean (v : value) : bool :=
  match v with
  | VUndefined | VNull => false
  | VBool b => b
  | VNumber n => negb (JSNumber.isNaN n || JSNumber.isZero n)
  | VString s => negb (String.eqb s "")
  | VObject => true
  end.

Definition ToString (v : value) : string :=
  match v with
  | VUndefined => "undefined"
  | VNull => "null"
  | VBool b => if b then "true" else "false"
  | VNumber n => JSNumber.toString n
  | VString s => s
  | VObject => "[object Object]"
  end.

Definition ToNumber (v : value) : number :=
  match v with
  | VUndefined => NaN
  | VNull => of_Z 0
  | VBool b => of_Z (if b then 1 else 0)
  | VNumber n => n
  | VString s => JSNumber.ofString s
  | VObject => JSNumber.ofString (ToString VObject)
  end.

(** The global [isNaN(v)]. *)
Definition isNaN (v : value) : bool := JSNumber.isNaN (ToNumber v).

(** [a || b] *)
Definition or (a b : value) : value := if ToBoolean a then a else b.

(** [a < b]: two strings (an object first becomes its string) are compared
    as strings, anything else as numbers, [NaN] comparing false. *)
Definition lt (a b : value) : bool :=
  match a, b with
  | (VString _ | VObject), (VString _ | VObject) => JSString.ltb (ToString a) (ToString b)
  | _, _ => JSNumber.ltb (ToNumber a) (ToNumber b)
  end.

(** [a > b] is [b < a]. *)
Definition gt (a b : value) : bool := lt b a.

(** [v === s] for a string [s]. *)
Definition strict_eq_string (v : value) (s : string) : bool :=
  match v with
  | VString t => String.eqb t s
  | _ => false
  end.

(** SameValueZero, the equality of the elements of a [Set]. *)
Definition same_value_zero (a b : value) : bool :=
  match a, b with
  | VUndefined, VUndefined | VNull, VNull | VObject, VObject => true
  | VBool x, VBool y => Bool.eqb x y
  | VNumber x, VNumber y => (JSNumber.isNaN x && JSNumber.isNaN y) || JSNumber.eqb x y
  | VString x, VString y => String.eqb x y
  | _, _ => false
  end.

(** *** Arrays *)

(** A slot of an array is an element or a hole. *)
Definition array (A : Type) := list (option A).

Definition dense {A} (l : list A) : array A := List.map Some l.

(** [a[i]] on an array of values: holes and indices out of range read
    as [undefined]. *)
Definition index (a : array value) (i : nat) : value :=
  match a !! i with
  | Some (Some v) => v
  | _ => VUndefined
  end.

(** [a.map(f)]: holes stay holes. *)
Definition array_map {A B} (f : A -> B) (a : array A) : array B :=
  List.map (option_map f) a.

(** [[...new Set(l)]]: the first occurrence of each element, in order. *)
Fixpoint unique (seen l : list value) : list value :=
  match l with
  | [] => []
  | v :: l' =>
      if existsb (same_value_zero v) seen then unique seen l'
      else v :: unique (v :: seen) l'
  end.

(** A consistent comparator for the elements of [l], as the language
    defines it: every element ties with itself, ties are symmetric and
    transitive, and so are the two strict orders. *)
Definition consistent {A} (cmp : A -> A -> Z) (l : list A) : Prop :=
  forall a b c, a ∈ l -> b ∈ l -> c ∈ l ->
    cmp a a = 0
    /\ (cmp a b = 0 -> cmp b a = 0)
    /\ (cmp a b = 0 -> cmp b c = 0 -> cmp a c = 0)
    /\ (cmp a b < 0 -> cmp b c < 0 -> cmp a c < 0)
    /\ (0 < cmp a b -> 0 < cmp b c -> 0 < cmp a c).

(** [Array.prototype.sort].  For a comparator that is [consistent] on the
    elements the language prescribes the order: the elements in
    non-decreasing order of the comparator, ties in the order of the
    input.  That order is computed here by the insertion sort that puts
    every element before the first later one it does not exceed; [cmp x y]
    is the comparator's number, of which only the sign is used.  For a
    comparator that is not consistent the language leaves the order to the
    engine, and [sort] is then not the order of any particular engine: see
    [V8.ArrayTimSort]. *)
Fixpoint insert {A} (cmp : A -> A -> Z) (x : A) (l : list A) : list A :=
  match l with
  | [] => [x]
  | y :: l' => if 0 <? cmp x y then y :: insert cmp x l' else x :: l
  end.

Fixpoint sort {A} (cmp : A -> A -> Z) (l : list A) : list A :=
  match l with
  | [] => []
  | x :: l' => insert cmp x (sort cmp l')
  end.

(** The comparator of [sort()] without an argument: by string. *)
Definition default_compare (x y : value) : Z :=
  if JSString.ltb (ToString x) (ToString y) then -1
  else if JSString.ltb (ToString y) (ToString x) then 1
  else 0.

(** *** Row objects *)

Abbreviation obj := (gmap string value).

(** [o[k]].  [__proto__] is the accessor of [Object.prototype] and never
    an own property of an object built by assignment.  The component reads
    a row under a header, under the empty label or under ["undefined"]
    only, so that no other inherited property is ever reached. *)
Definition Get (o : obj) (k : string) : value :=
  if String.eqb k "__proto__" then VObject
  else match o !! k with
       | Some v => v
       | None => VUndefined
       end.

(** [o[k] = v].  Assigning to [__proto__] leaves the own properties as
    they are. *)
Definition Put (o : obj) (k : string) (v : value) : obj :=
  if String.eqb k "__proto__" then o else <[k := v]> o.

(** [Object.values(o)]; only membership is observed by [some]. *)
Definition Object_values (o : obj) : list value := (map_to_list o).*2.

(** *** Dates *)

Definition msPerDay : Z := 86400000.

Definition DayFromYear (y : Z) : Z :=
  365 * (y - 1970) + (y - 1969) / 4 - (y - 1901) / 100 + (y - 1601) / 400.

Definition InLeapYear (y : Z) : bool :=
  (DayFromYear (y + 1) - DayFromYear y) =? 366.

(** The largest [y] with [DayFromYear y <= day]: an estimate from the mean
    length of a year, corrected by one either way. *)
Definition YearFromDay (day : Z) : Z :=
  let y := 1970 + day * 400 / 146097 in
  if day <? DayFromYear y then y - 1
  else if DayFromYear (y + 1) <=? day then y + 1
  else y.

(** Days of the year before the month [m] (0 to 12). *)
Definition DaysBeforeMonth (leap : bool) (m : Z) : Z :=
  let l := if leap then 1 else 0 in
  match m with
  | 0 => 0 | 1 => 31 | 2 => 59 + l | 3 => 90 + l | 4 => 120 + l
  | 5 => 151 + l | 6 => 181 + l | 7 => 212 + l | 8 => 243 + l
  | 9 => 273 + l | 10 => 304 + l | 11 => 334 + l | _ => 365 + l
  end.

Definition MonthFromDayInYear (leap : bool) (d : Z) : Z :=
  let fix go (fuel : nat) (m : Z) : Z :=
    match fuel with
    | O => m
    | S f => if d <? DaysBeforeMonth leap (m + 1) then m else go f (m + 1)
    end in
  go 11%nat 0.

Definition MakeDay (year month date : Z) : Z :=
  let ym := year + month / 12 in
  let mn := month mod 12 in
  DayFromYear ym + DaysBeforeMonth (InLeapYear ym) mn + date - 1.

Definition MakeTime (hour min sec ms : Z) : Z :=
  hour * 3600000 + min * 60000 + sec * 1000 + ms.

Definition MakeDate (day time : Z) : Z := day * msPerDay + time.

(** A time value: milliseconds since 1970-01-01T00:00Z, or [None] for the
    invalid date. *)
Definition time_value := option Z.

Definition TimeClip (t : number) : time_value :=
  match t with
  | Fin m k =>
      if JSNumber.ltb (of_Z 8640000000000000) (Fin (Z.abs m) k) then None
      else Some (JSNumber.truncate m k)
  | _ => None
  end.

(** [new Date(year, month, date)]: the fields are local time;
    [LocalTZA t] is the offset of local time from UTC, in milliseconds,
    in effect at the local time [t]. *)
Definition Date_of_fields (LocalTZA : Z -> Z) (year month date : Z) : time_value :=
  let yr := if (0 <=? year) && (year <=? 99) then 1900 + year else year in
  let t := MakeDate (MakeDay yr month date) (MakeTime 0 0 0 0) in
  TimeClip (of_Z (t - LocalTZA t)).

(** [new Date(v)] for a number [v]. *)
Definition Date_of_number (v : number) : time_value := TimeClip v.

(** [d.getTime()] *)
Definition getTime (d : time_value) : number :=
  match d with
  | Some t => of_Z t
  | None => NaN
  end.

Definition year_string (y : Z) : string :=
  if (0 <=? y) && (y <=? 9999) then JSString.padded 4 (Z.to_N y)
  else (if y <? 0 then "-" else "+") +:+ JSString.padded 6 (Z.to_N (Z.abs y)).

(** YearFromTime, MonthFromTime (from 0) and DateFromTime (from 1) of a
    day number. *)
Definition FieldsFromDay (day : Z) : Z * Z * Z :=
  let y := YearFromDay day in
  let leap := InLeapYear y in
  let diy := day - DayFromYear y in
  let m := MonthFromDayInYear leap diy in
  (y, m, diy - DaysBeforeMonth leap m + 1).

(** [YYYY-MM-DD] of a year, a month (from 1) and a day of the month. *)
Definition iso_date (y m d : Z) : string :=
  year_string y +:+ "-" +:+ JSString.padded 2 (Z.to_N m)
    +:+ "-" +:+ JSString.padded 2 (Z.to_N d).

(** [YYYY-MM-DD] of a day number, in UTC. *)
Definition iso_date_of_day (day : Z) : string :=
  let '(y, m, d) := FieldsFromDay day in iso_date y (m + 1) d.

Definition iso_time_of_ms (ms : Z) : string :=
  JSString.padded 2 (Z.to_N (ms / 3600000)) +:+ ":" +:+
  JSString.padded 2 (Z.to_N (ms / 60000 mod 60)) +:+ ":" +:+
  JSString.padded 2 (Z.to_N (ms / 1000 mod 60)) +:+ "." +:+
  JSString.padded 3 (Z.to_N (ms mod 1000)) +:+ "Z".

(** [d.toISOString()]: a [RangeError] on the invalid date. *)
Definition toISOString (d : time_value) : result string :=
  match d with
  | None => Throw RangeError
  | Some t =>
      Ok (iso_date_of_day (t / msPerDay) +:+ "T" +:+ iso_time_of_ms (t mod msPerDay))
  end.

End JS.

(** ** The sort of the V8 engine on short arrays *)

Module V8.

Section TimSort.

Context {A : Type} (cmp : A -> A -> Z).

(** The loop of [CountAndMakeRun]: the number of further elements that
    continue the run after [previous]. *)
Fixpoint run_rest (descending : bool) (previous : A) (l : list A) : nat :=
  match l with
  | [] => O
  | current :: l' =>
      let order := cmp current previous in
      if (if descending then order <? 0 else 0 <=? order)
      then S (run_rest descending current l')
      else O
  end.

(** [CountAndMakeRun]: the run at the start of the array, reversed when it
    is strictly descending, and the elements after it. *)
Definition CountAndMakeRun (l : list A) : list A * list A :=
  match l with
  | high :: low :: l' =>
      let descending := cmp low high <? 0 in
      let runLength := S (S (run_rest descending low l')) in
      let run := firstn runLength l in
      (if descending then rev run else run, skipn runLength l)
  | _ => (l, [])
  end.

(** The binary search of [BinaryInsertionSort] for the place of [pivot]
    in the sorted elements, between [left] and [right]. *)
Fixpoint search (fuel : nat) (pivot : A) (sorted : list A) (left right : nat) : nat :=
  match fuel with
  | O => left
  | S fuel' =>
      if (left <? right)%nat then
        let mid := (left + Nat.div2 (right - left))%nat in
        match nth_error sorted mid with
        | Some x =>
            if cmp pivot x <? 0 then search fuel' pivot sorted left mid
            else search fuel' pivot sorted (S mid) right
        | None => left
        end
      else left
  end.

(** [BinaryInsertionSort]: the elements after the run are inserted, one
    after the other, at the place the search finds. *)
Fixpoint BinaryInsertionSort (sorted rest : list A) : list A :=
  match rest with
  | [] => sorted
  | pivot :: rest' =>
      let left := search (S (length sorted)) pivot sorted O (length sorted) in
      BinaryInsertionSort (firstn left sorted ++ pivot :: skipn left sorted) rest'
  end.

(** [ArrayTimSort] on an array of fewer than 64 elements, where the
    minimal run length is the length of the array: the first run is
    extended to the whole array by binary insertion, and nothing is
    merged.  Longer arrays are not modelled. *)
Definition ArrayTimSort (l : list A) : option (list A) :=
  if (length l <? 64)%nat then
    let '(run, rest) := CountAndMakeRun l in Some (BinaryInsertionSort run rest)
  else None.

End TimSort.

End V8.

(** ** The component *)

Module App.

Import JS.

(** The React state of [App]. *)
Record State := mkState {
  allData : list obj;
  headers : array string;
  search : string;
  roleFilter : string;
  teamFilter : string;
  regionFilter : string;
  sortCol : Z;
  sortAsc : bool;
  error : option string;
  loading : bool
}.

Definition initial : State :=
  {| allData := []; headers := []; search := ""; roleFilter := "";
     teamFilter := ""; regionFilter := ""; sortCol := -1; sortAsc := true;
     error := None; loading := true |}.

(** *** [loadExcelFile], from the decoded sheet on (lines 37-49) *)

(** [json[0].map(h => String(h || '').trim())] *)
Definition header_row (first : array value) : array string :=
  array_map (fun h => JSString.trim (ToString (or h (VString "")))) first.

(** [hdrs.forEach((h, i) => obj[h] = row[i] || '')], from index [i] on;
    [forEach] passes over the holes of [hdrs]. *)
Fixpoint assign_cells (hdrs : array string) (i : nat) (row : array value) (o : obj) : obj :=
  match hdrs with
  | [] => o
  | None :: hdrs' => assign_cells hdrs' (S i) row o
  | Some h :: hdrs' => assign_cells hdrs' (S i) row (Put o h (or (index row i) (VString "")))
  end.

Definition make_row (hdrs : array string) (row : array value) : obj :=
  assign_cells hdrs 0 row ∅.

(** [v !== ''] *)
Definition not_empty_string (v : value) : bool := negb (strict_eq_string v "").

(** [Object.values(row).some(v => v !== '')] *)
Definition has_content (row : obj) : bool :=
  existsb not_empty_string (Object_values row).

Definition set_sheet (hdrs : array string) (rows : list obj) (st : State) : State :=
  {| allData := rows; headers := hdrs; search := search st;
     roleFilter := roleFilter st; teamFilter := teamFilter st;
     regionFilter := regionFilter st; sortCol := sortCol st;
     sortAsc := sortAsc st; error := error st; loading := loading st |}.

Definition setLoading (b : bool) (st : State) : State :=
  {| allData := allData st; headers := headers st; search := search st;
     roleFilter := roleFilter st; teamFilter := teamFilter st;
     regionFilter := regionFilter st; sortCol := sortCol st;
     sortAsc := sortAsc st; error := error st; loading := b |}.

(** The state after [loadExcelFile] has decoded the sheet into [json]. *)
Definition loadExcelFile (json : list (array value)) (st : State) : State :=
  match json with
  | first :: rest =>
      let hdrs := header_row first in
      let rows := List.filter has_content (List.map (make_row hdrs) rest) in
      setLoading false (set_sheet hdrs rows st)
  | [] => setLoading false st
  end.

(** *** The derived views (lines 21-23 and 59-83) *)

(** [headers.find(h => h.toLowerCase().includes(target)) || ''].  [find]
    visits holes too, as [undefined], on which [toLowerCase] is a
    [TypeError]. *)
Fixpoint facetKey (target : string) (hs : array string) : result string :=
  match hs with
  | [] => Ok ""
  | None :: _ => Throw TypeError
  | Some h :: hs' =>
      if JSString.includes (JSString.toLowerCase h) target
      then Ok (ToString (or (VString h) (VString "")))
      else facetKey target hs'
  end.

(** [[...new Set(allData.map(d => d[key]).filter(Boolean))].sort()] *)
Definition facetValues (key : string) (rows : list obj) : list value :=
  sort default_compare
    (unique [] (List.filter ToBoolean (List.map (fun d => Get d key) rows))).

(** [!search || Object.values(row).some(v =>
      String(v).toLowerCase().includes(search.toLowerCase()))] *)
Definition matchSearch (search : string) (row : obj) : bool :=
  negb (ToBoolean (VString search)) ||
  existsb (fun v => JSString.includes (JSString.toLowerCase (ToString v))
                                      (JSString.toLowerCase search))
          (Object_values row).

(** [!sel || row[key] === sel] *)
Definition matchFacet (sel key : string) (row : obj) : bool :=
  negb (ToBoolean (VString sel)) || strict_eq_string (Get row key) sel.

Definition keep_row (st : State) (roleKey teamKey regionKey : string) (row : obj) : bool :=
  matchSearch (search st) row && matchFacet (roleFilter st) roleKey row
  && matchFacet (teamFilter st) teamKey row
  && matchFacet (regionFilter st) regionKey row.

Definition filteredData (st : State) (roleKey teamKey regionKey : string) : list obj :=
  List.filter (keep_row st roleKey teamKey regionKey) (allData st).

(** [headers[sortCol]] as a property name. *)
Definition sort_key (hs : array string) (col : Z) : string :=
  match hs !! Z.to_nat col with
  | Some (Some h) => h
  | _ => ToString VUndefined
  end.

(** The comparator handed to [sort] (lines 75-83). *)
Definition compareRows (hs : array string) (col : Z) (asc : bool) (a b : obj) : Z :=
  if col <? 0 then 0
  else
    let key := sort_key hs col in
    let va := Get a key in
    let vb := Get b key in
    let numeric := negb (isNaN va) && negb (isNaN vb) in
    let va' := if numeric then VNumber (ToNumber va) else va in
    let vb' := if numeric then VNumber (ToNumber vb) else vb in
    if lt va' vb' then (if asc then -1 else 1)
    else if gt va' vb' then (if asc then 1 else -1)
    else 0.

Definition sortedRows (hs : array string) (col : Z) (asc : bool) (rows : list obj) : list obj :=
  sort (compareRows hs col asc) rows.

(** What one render of [App] computes before the markup. *)
Record View := mkView {
  roleKey : string;
  teamKey : string;
  regionKey : string;
  roles : list value;
  teams : list value;
  regions : list value;
  filtered : list obj;
  sortedData : list obj
}.

Definition render (st : State) : result View :=
  rk ← facetKey "role" (headers st);
  tk ← facetKey "team" (headers st);
  gk ← facetKey "region" (headers st);
  let fd := filteredData st rk tk gk in
  mret {| roleKey := rk; teamKey := tk; regionKey := gk;
          roles := facetValues rk (allData st);
          teams := facetValues tk (allData st);
          regions := facetValues gk (allData st);
          filtered := fd;
          sortedData := sortedRows (headers st) (sortCol st) (sortAsc st) fd |}.

(** [handleSort(colIndex)] *)
Definition handleSort (colIndex : Z) (st : State) : State :=
  {| allData := allData st; headers := headers st; search := search st;
     roleFilter := roleFilter st; teamFilter := teamFilter st;
     regionFilter := regionFilter st;
     sortCol := if sortCol st =? colIndex then sortCol st else colIndex;
     sortAsc := if sortCol st =? colIndex then negb (sortAsc st) else true;
     error := error st; loading := loading st |}.

(** *** [parseGoogleSheetsDate] (lines 95-103) *)

Definition parseGoogleSheetsDate (LocalTZA : Z -> Z) (serialNumber : value) : result string :=
  if negb (ToBoolean serialNumber) then Ok ""
  else
    let epoch := Date_of_fields LocalTZA 1899 11 30 in
    let date :=
      Date_of_number
        (JSNumber.add (getTime epoch)
                      (JSNumber.mul (ToNumber serialNumber) (of_Z 86400000))) in
    s ← toISOString date;
    mret (JSString.split_head "T" s).

End App.

(** ** The keys of the facets, as the component looks them up *)

Module Keys.

Import JS App.

(** [sub] occurs in [s]. *)
Definition contains (s sub : string) : Prop :=
  ∃ pre post, s = pre +:+ sub +:+ post.

(** [q] occurs in [s] when case is ignored. *)
Definition contains_ci (s q : string) : Prop :=
  contains (JSString.toLowerCase s) (JSString.toLowerCase q).

(** The header [h] names the facet of target substring [target]. *)
Definition names (target h : string) : Prop :=
  contains (JSString.toLowerCase h) target.

(** The key under which the component reads a facet (lines 21-23), over
    headers without holes: the first header that names the facet or, by
    the fallback [|| ''], the empty label when no header does.  This is
    the key of the code; the header a facet resolves to in the
    specification, which is none in the second case, is
    [Spec.resolved_header]. *)
Definition resolves (target : string) (hs : list string) (k : string) : Prop :=
  (∃ pre post, hs = pre ++ k :: post ∧ names target k ∧
               Forall (λ h, ¬ names target h) pre)
  ∨ (Forall (λ h, ¬ names target h) hs ∧ k = "").

End Keys.

(** ** The contracts of the specification, over the component *)

Module Spec.

Import JS App Keys.

(** Some value of the row contains the query, or the query is empty. *)
Definition text_match (q : string) (r : obj) : Prop :=
  q = "" ∨ ∃ k v, r !! k = Some v ∧ contains_ci (ToString v) q.

(** [!sel || row[key] === sel]: without a selection, or with the
    selection itself, a text, under [key]. *)
Definition facet_match (sel key : string) (r : obj) : Prop :=
  sel ≠ "" → Get r key = VString sel.

(** [out] consists of the elements of a list that satisfy [P], each as
    often as it occurs and in the order of the list. *)
Inductive selection {A} (P : A → Prop) : list A → list A → Prop :=
| selection_nil : selection P [] []
| selection_keep x l out : P x → selection P l out → selection P (x :: l) (x :: out)
| selection_drop x l out : ¬ P x → selection P l out → selection P (x :: l) out.

Record Dataset := mkDataset {
  ds_headers : list string;
  ds_rows : list obj
}.

Record FilterState := mkFilterState {
  query : string;
  role_sel : string;
  team_sel : string;
  region_sel : string
}.

Definition no_filter : FilterState :=
  {| query := ""; role_sel := ""; team_sel := ""; region_sel := "" |}.

Record SortState := mkSortState {
  column : Z;
  ascending : bool
}.

Definition unsorted : SortState := {| column := -1; ascending := true |}.

(** The React state holding a dataset and the filter and sort settings. *)
Definition state_of (d : Dataset) (f : FilterState) (s : SortState) : State :=
  {| allData := ds_rows d; headers := dense (ds_headers d);
     search := query f; roleFilter := role_sel f; teamFilter := team_sel f;
     regionFilter := region_sel f; sortCol := column s;
     sortAsc := ascending s; error := None; loading := false |}.

(** [filter(dataset, state)]: the [filteredData] of a render. *)
Definition filter (d : Dataset) (f : FilterState) : result (list obj) :=
  v ← render (state_of d f unsorted); mret (filtered v).

(** The three facets of the component. *)
Inductive facet := Role | Team | Region.

Definition target (c : facet) : string :=
  match c with Role => "role" | Team => "team" | Region => "region" end.

Definition options_of (c : facet) (v : View) : list value :=
  match c with Role => roles v | Team => teams v | Region => regions v end.

(** [facetOptions(dataset, columnSelector)]: the option list of a render. *)
Definition facetOptions (d : Dataset) (c : facet) : result (list value) :=
  v ← render (state_of d no_filter unsorted); mret (options_of c v).

(** The filter state with the selection of one facet replaced. *)
Definition select (c : facet) (sel : string) (f : FilterState) : FilterState :=
  match c with
  | Role => {| query := query f; role_sel := sel; team_sel := team_sel f; region_sel := region_sel f |}
  | Team => {| query := query f; role_sel := role_sel f; team_sel := sel; region_sel := region_sel f |}
  | Region => {| query := query f; role_sel := role_sel f; team_sel := team_sel f; region_sel := sel |}
  end.

(** The cells of a data row that fall under the headers: the row cut to
    the number of headers, or filled up to it with absent cells; each with
    the header above it.  A labelled cell is stored under its label as it
    is, or as the empty text when it is absent or falsy; a later cell
    replaces an earlier one of the same label. *)
Definition store_cell (o : obj) (p : option string * option value) : obj :=
  match p.1 with
  | Some h => Put o h (or (default VUndefined p.2) (VString ""))
  | None => o
  end.

Definition zip_row (hdrs : array string) (row : array value) : obj :=
  foldl store_cell ∅ (zip hdrs (resize (length hdrs) None row)).

(** A row has content when some value of it is not the empty text. *)
Definition with_content (r : obj) : Prop :=
  ∃ k v, r !! k = Some v ∧ v ≠ VString "".

(** A cell that is absent or holds a falsy value. *)
Definition falsy_cell (c : option value) : Prop :=
  match c with
  | Some v => ToBoolean v = false
  | None => True
  end.

(** The data row with its falsy cells taken out. *)
Definition blank_falsy (row : array value) : array value :=
  List.map (λ c, match c with
                 | Some v => if ToBoolean v then Some v else None
                 | None => None
                 end) row.

(** C4 as the specification words it: loading the empty grid, from the
    initial state, is an error that reaches the caller. *)
Definition empty_sheet_is_an_error : Prop :=
  is_Some (error (loadExcelFile [] initial)).

(** The comparison of two cell values as the specification words it:
    numeric when both parse as numbers, by text otherwise. *)
Definition parses (v : value) : option number :=
  if isNaN v then None else Some (ToNumber v).

Definition directed (asc : bool) (c : comparison) : Z :=
  match c with
  | Lt => if asc then -1 else 1
  | Gt => if asc then 1 else -1
  | Eq => 0
  end.

Definition compare_values (asc : bool) (va vb : value) : Z :=
  match parses va, parses vb with
  | Some x, Some y => directed asc (default Eq (JSNumber.compare x y))
  | _, _ => directed asc (String.compare (ToString va) (ToString vb))
  end.

(** The Gregorian calendar, day by day: months from 1 to 12. *)
Record date := mkDate {
  year : Z;
  month : Z;
  day_of_month : Z
}.

Definition leap_year (y : Z) : bool :=
  ((y mod 4 =? 0) && negb (y mod 100 =? 0)) || (y mod 400 =? 0).

Definition days_in_month (y m : Z) : Z :=
  match m with
  | 2 => if leap_year y then 29 else 28
  | 4 | 6 | 9 | 11 => 30
  | _ => 31
  end.

Definition next_day (d : date) : date :=
  if day_of_month d <? days_in_month (year d) (month d)
  then mkDate (year d) (month d) (day_of_month d + 1)
  else if month d <? 12 then mkDate (year d) (month d + 1) 1
  else mkDate (year d + 1) 1 1.

Definition plus_days (d : date) (n : N) : date := N.iter n next_day d.

Definition render_date (d : date) : string :=
  iso_date (year d) (month d) (day_of_month d).

(** The epoch of the serials. *)
Definition epoch_date : date := mkDate 1899 12 30.

(** [decodeDate(serial)] as the specification words it, for a positive
    whole serial: the epoch plus that many days. *)
Definition decodeDate (serial : N) : string :=
  render_date (plus_days epoch_date serial).

(** The date of a day number, by the fields of the engine. *)
Definition date_of_day (day : Z) : date :=
  let '(y, m, d) := FieldsFromDay day in mkDate y (m + 1) d.

(** [a] is not after [b] in the order of their texts. *)
Definition text_le (a b : value) : Prop :=
  String.leb (ToString a) (ToString b) = true.

(** The elements of a list with their positions. *)
Fixpoint positions_from {A} (i : nat) (l : list A) : list (nat * A) :=
  match l with
  | [] => []
  | x :: l' => (i, x) :: positions_from (S i) l'
  end.

Definition positions {A} (l : list A) : list (nat * A) := positions_from 0 l.

(** [x] stands before [y] in [l]. *)
Definition precedes {A} (x y : A) (l : list A) : Prop := [x; y] `sublist_of` l.

Definition selected (c : facet) (f : FilterState) : string :=
  match c with Role => role_sel f | Team => team_sel f | Region => region_sel f end.

(** The facet [c] is absent from the headers [hs]. *)
Definition absent (c : facet) (hs : list string) : Prop :=
  Forall (λ h, ¬ names (target c) h) hs.

(** The header a facet resolves to, as the specification words it: the
    first header whose lower-case text contains the target substring, and
    none when no header does, the facet being absent. *)
Fixpoint resolved_header (target : string) (hs : list string) : option string :=
  match hs with
  | [] => None
  | h :: hs' =>
      if JSString.includes (JSString.toLowerCase h) target then Some h
      else resolved_header target hs'
  end.

(** The text of the cell of a row under a header: the rows of the
    specification hold texts. *)
Definition cell_text (r : obj) (h : string) : string := ToString (Get r h).

(** Clause (b) of C1 for one facet: with a non-empty selection, the text
    of the row under the resolved header is the selection; an absent facet
    imposes nothing. *)
Definition facet_clause (target sel : string) (hs : list string) (r : obj) : Prop :=
  sel ≠ "" → ∀ h, resolved_header target hs = Some h → cell_text r h = sel.

(** The rows [filter] returns, as C1 words them. *)
Definition passes (d : Dataset) (f : FilterState) (r : obj) : Prop :=
  text_match (query f) r
  ∧ facet_clause "role" (role_sel f) (ds_headers d) r
  ∧ facet_clause "team" (team_sel f) (ds_headers d) r
  ∧ facet_clause "region" (region_sel f) (ds_headers d) r.

(** C1 as the specification words it: on every dataset and filter state,
    [filter] returns the rows that pass, as often and in the order they
    stand in the dataset. *)
Definition filter_returns_the_passing_rows : Prop :=
  ∀ (d : Dataset) (f : FilterState),
    ∃ out, filter d f = Ok out ∧ selection (passes d f) (ds_rows d) out.

(** C9 as the specification words it, of an input [l] and an output
    [out]: two elements that the comparator finds equal stand in the
    output in the order they had in the input. *)
Definition stable {A} (cmp : A → A → Z) (l out : list A) : Prop :=
  ∀ i j a b, l !! i = Some a → l !! j = Some b → (i < j)%nat → cmp a b = 0 →
    ∃ i' j', out !! i' = Some a ∧ out !! j' = Some b ∧ (i' < j')%nat.

(** C7 as the specification words it: on a dataset without the facet,
    every selection on it filters like no selection. *)
Definition absent_facet_is_ignored : Prop :=
  ∀ (d : Dataset) (c : facet) (f : FilterState) (sel : string),
    absent c (ds_headers d) →
    filter d (select c sel f) = filter d (select c "" f).

End Spec.

(** ** The markup of the component, as far as it computes *)

Module Markup.

Import JS App Keys Spec.

(** *** What [loadExcelFile] does with the outcome of the retrieval
    (lines 28-53) *)

Definition EXCEL_FILE_PATH : string := "/data/players.xlsx".

(** What lines 29-35 end in: an exception raised by [fetch], by
    [arrayBuffer] or by the decoder, with its message; a response that is
    not ok; or the decoded first sheet. *)
Inductive retrieval :=
| Raised (message : string)
| NotOk
| Decoded (json : list (array value)).

(** [setError(message)] *)
Definition setError (message : string) (st : State) : State :=
  {| allData := allData st; headers := headers st; search := search st;
     roleFilter := roleFilter st; teamFilter := teamFilter st;
     regionFilter := regionFilter st; sortCol := sortCol st;
     sortAsc := sortAsc st; error := Some message; loading := loading st |}.

(** The state after [loadExcelFile] has run to its end. *)
Definition loadExcelFile_outcome (r : retrieval) (st : State) : State :=
  match r with
  | Decoded json => loadExcelFile json st
  | NotOk => setLoading false (setError ("Could not load file: " +:+ EXCEL_FILE_PATH) st)
  | Raised message => setLoading false (setError message st)
  end.

(** *** [getRoleClass] (lines 106-108) *)

(** [s.replace(/[^a-z]/g, '')] *)
Fixpoint keep_lower_letters (s : string) : string :=
  match s with
  | String c s' =>
      if JSString.in_range 97 122 c then String c (keep_lower_letters s')
      else keep_lower_letters s'
  | EmptyString => EmptyString
  end.

(** ['role-' + role.toLowerCase().replace(/[^a-z]/g, '')]; a value that
    is no string has no [toLowerCase] to call. *)
Definition getRoleClass (role : value) : result string :=
  match role with
  | VString s => Ok ("role-" +:+ keep_lower_letters (JSString.toLowerCase s))
  | _ => Throw TypeError
  end.

(** *** The filters (lines 155-173) *)

(** [<option key={role} value={role}>]: the value of an option element is
    the text of the option, and [e.target.value] hands that text to
    [setRoleFilter], [setTeamFilter] or [setRegionFilter]. *)
Definition option_value (v : value) : string := ToString v.

(** *** The table (lines 182-224) *)

(** The [className] of the header cell of column [i]. *)
Definition thClass (st : State) (i : Z) : string :=
  if sortCol st =? i then (if sortAsc st then "sort-asc" else "sort-desc")
  else "".

(** A data cell: a role badge with its class and content, or a content
    alone. *)
Inductive cell :=
| Badge (className : string) (content : value)
| Content (content : value).

(** The body of [headers.map(header => ...)] (lines 199-220). *)
Definition renderCell (LocalTZA : Z -> Z) (roleKey : string) (row : obj) (header : string)
  : result cell :=
  let val := or (Get row header) (VString "") in
  if String.eqb header roleKey && ToBoolean val then
    cls ← getRoleClass val;
    mret (Badge ("role-badge " +:+ cls) val)
  else if String.eqb header "Birthday" then
    s ← parseGoogleSheetsDate LocalTZA val;
    mret (Content (VString s))
  else Ok (Content val).

(** [headers.map(...)] over the headers of one row: holes stay holes, and
    the first exception of a cell is the exception of the row. *)
Fixpoint renderCells (LocalTZA : Z -> Z) (roleKey : string) (row : obj) (hs : array string)
  : result (array cell) :=
  match hs with
  | [] => Ok []
  | None :: hs' =>
      cs ← renderCells LocalTZA roleKey row hs';
      mret (None :: cs)
  | Some h :: hs' =>
      c ← renderCell LocalTZA roleKey row h;
      cs ← renderCells LocalTZA roleKey row hs';
      mret (Some c :: cs)
  end.

(** [sortedData.map(...)] *)
Fixpoint renderRows (LocalTZA : Z -> Z) (roleKey : string) (hs : array string) (rows : list obj)
  : result (list (array cell)) :=
  match rows with
  | [] => Ok []
  | row :: rows' =>
      cs ← renderCells LocalTZA roleKey row hs;
      rs ← renderRows LocalTZA roleKey hs rows';
      mret (cs :: rs)
  end.

(** The table body: the one row "No matching records found" spanning the
    columns, or the rows of cells. *)
Inductive tbody :=
| NoData (colSpan : nat)
| Rows (rows : list (array cell)).

(** Lines 194-223, from the sorted rows of a render. *)
Definition tableBody (LocalTZA : Z -> Z) (hs : array string) (v : View) : result tbody :=
  match sortedData v with
  | [] => Ok (NoData (length hs))
  | _ :: _ =>
      rs ← renderRows LocalTZA (roleKey v) hs (sortedData v);
      mret (Rows rs)
  end.

Definition renderBody (LocalTZA : Z -> Z) (st : State) : result tbody :=
  v ← render st; tableBody LocalTZA (headers st) v.

(** What [App] returns: the loading notice, the error notice with its
    message, or the page with the two counters and the table. *)
Inductive page :=
| LoadingPage
| ErrorPage (message : string)
| TablePage (players teamCount : nat) (body : tbody).

(** [if (error)]: the error is [null] or a message. *)
Definition shown_error (st : State) : option string :=
  match error st with
  | Some message => if ToBoolean (VString message) then Some message else None
  | None => None
  end.

(** One call of [App]: the derived data are computed first (lines 21-83),
    then the notices are chosen (lines 110-125), then the page is built. *)
Definition App (LocalTZA : Z -> Z) (st : State) : result page :=
  v ← render st;
  if loading st then Ok LoadingPage
  else match shown_error st with
       | Some message => Ok (ErrorPage message)
       | None =>
           body ← tableBody LocalTZA (headers st) v;
           mret (TablePage (length (allData st)) (length (teams v)) body)
       end.

(** The filter state with its query replaced. *)
Definition with_query (q : string) (f : FilterState) : FilterState :=
  {| query := q; role_sel := role_sel f; team_sel := team_sel f;
     region_sel := region_sel f |}.

End Markup.

(** ** Orders used in the statements *)

Module Order.

Import JS App.

(** The value [v] is read as the whole number [n], one of those binary64
    holds exactly. *)
Definition denotes (v : value) (n : Z) : Prop :=
  isNaN v = false
  ∧ JSNumber.compare (ToNumber v) (of_Z n) = Some Eq
  ∧ Z.abs n <= 9007199254740992.

(** The value [v] is the text [s], which does not parse as a number. *)
Definition plain_text (v : value) (s : string) : Prop :=
  v = VString s ∧ isNaN v = true.

End Order.

(** * Properties *)

Import JS App Keys Spec Markup Order.

(** ** Strings *)

Lemma append_cons (c : ascii) (a b : string) :
  String c a +:+ b = String c (a +:+ b).
Proof. reflexivity. Qed.

Lemma prefix_app (a s : string) :
  String.prefix a s = true ↔ ∃ post, s = a +:+ post.
Proof.
  revert s. induction a as [|c a IH]; intros s.
  - destruct s; simpl; (split; [intros _; by eexists | done]).
  - setoid_rewrite append_cons. destruct s as [|c' s]; simpl.
    + split; [done | intros [post H]; discriminate].
    + destruct (ascii_dec c c') as [->|Hne].
      * rewrite IH. split; intros [post H]; exists post; congruence.
      * split; [done | intros [post H]; congruence].
Qed.

Lemma includes_contains (s sub : string) :
  JSString.includes s sub = true ↔ contains s sub.
Proof.
  unfold contains. induction s as [|c s IH]; cbn [JSString.includes].
  - rewrite orb_false_r, prefix_app. split.
    + intros [post H]. by exists "", post.
    + intros (pre & post & H). destruct pre; [by exists post | discriminate].
  - rewrite orb_true_iff, prefix_app, IH. split.
    + intros [[post H] | (pre & post & H)].
      * by exists "", post.
      * exists (String c pre), post. by rewrite append_cons, H.
    + intros (pre & post & H). destruct pre as [|c' pre].
      * left. by exists post.
      * right. exists pre, post. rewrite append_cons in H. congruence.
Qed.

Lemma not_includes_names (target h : string) :
  JSString.includes (JSString.toLowerCase h) target = false ↔ ¬ names target h.
Proof.
  unfold names. rewrite <- includes_contains.
  by destruct (JSString.includes _ _).
Qed.

(** ** Resolution of the facet columns *)

Lemma or_string (h : string) : ToString (or (VString h) (VString "")) = h.
Proof.
  unfold or. simpl. destruct (String.eqb_spec h ""); simpl; congruence.
Qed.

Lemma facetKey_dense (target : string) (hs : list string) :
  ∃ k, facetKey target (dense hs) = Ok k ∧ resolves target hs k.
Proof.
  induction hs as [|h hs (k & Hk & Hres)]; simpl.
  - exists "". split; [done|]. right. by split.
  - destruct (JSString.includes (JSString.toLowerCase h) target) eqn:E.
    + exists h. rewrite or_string. split; [done|].
      left. exists [], hs. repeat split; [|by constructor].
      by apply includes_contains.
    + apply not_includes_names in E. exists k. split; [done|].
      destruct Hres as [(pre & post & -> & Hn & Hpre) | [Hall ->]].
      * left. exists (h :: pre), post. repeat split; [done|by constructor].
      * right. split; [by constructor | done].
Qed.

Lemma resolves_unique (target : string) (hs : list string) (k k' : string) :
  resolves target hs k → resolves target hs k' → k = k'.
Proof.
  revert k k'. induction hs as [|h hs IH]; intros k k' H H'.
  - destruct H as [(pre & post & E & _) | [_ ->]]; [by destruct pre|].
    destruct H' as [(pre & post & E & _) | [_ ->]]; [by destruct pre | done].
  - assert (Hcase : ∀ q, resolves target (h :: hs) q →
              (names target h ∧ q = h) ∨ (¬ names target h ∧ resolves target hs q)).
    { intros q [(pre & post & E & Hn & Hpre) | [Hall ->]].
      - destruct pre as [|p pre]; simplify_eq/=; [by left|].
        right. inversion_clear Hpre. split; [done|]. left. by exists pre, post.
      - inversion_clear Hall. right. split; [done|]. by right. }
    destruct (Hcase _ H) as [[? ->] | [? ?]], (Hcase _ H') as [[? ->] | [? ?]];
      try done. by apply IH.
Qed.

(** On a header row with a hole before any header naming the facet, the
    lookup of the key raises. *)
Example facetKey_on_a_hole :
  facetKey "region" [Some "Name"; None; Some "Region"] = Throw TypeError.
Proof. reflexivity. Qed.

(** A render of a state with dense headers raises nothing and uses the
    resolved keys. *)
Lemma render_dense (d : Dataset) (f : FilterState) (s : SortState) :
  ∃ rk tk gk,
    resolves "role" (ds_headers d) rk ∧ resolves "team" (ds_headers d) tk ∧
    resolves "region" (ds_headers d) gk ∧
    render (state_of d f s) =
      Ok {| roleKey := rk; teamKey := tk; regionKey := gk;
            roles := facetValues rk (ds_rows d);
            teams := facetValues tk (ds_rows d);
            regions := facetValues gk (ds_rows d);
            filtered := filteredData (state_of d f s) rk tk gk;
            sortedData := sortedRows (dense (ds_headers d)) (column s) (ascending s)
                            (filteredData (state_of d f s) rk tk gk) |}.
Proof.
  destruct (facetKey_dense "role" (ds_headers d)) as (rk & Hrk & ?).
  destruct (facetKey_dense "team" (ds_headers d)) as (tk & Htk & ?).
  destruct (facetKey_dense "region" (ds_headers d)) as (gk & Hgk & ?).
  exists rk, tk, gk. repeat split; try done.
  unfold render. cbn [headers state_of]. by rewrite Hrk, Htk, Hgk.
Qed.

(** ** Filtering *)

Lemma Object_values_lookup (r : obj) (v : value) :
  In v (Object_values r) ↔ ∃ k, r !! k = Some v.
Proof.
  unfold Object_values. rewrite <- list_elem_of_In, list_elem_of_fmap. split.
  - intros ([k w] & -> & H). exists k. by apply elem_of_map_to_list in H.
  - intros [k H]. exists (k, v). split; [done|]. by apply elem_of_map_to_list.
Qed.

Lemma truthy_string (s : string) : ToBoolean (VString s) = false ↔ s = "".
Proof. simpl. destruct (String.eqb_spec s ""); naive_solver. Qed.

Lemma matchSearch_spec (q : string) (r : obj) :
  matchSearch q r = true ↔ text_match q r.
Proof.
  unfold matchSearch, text_match.
  rewrite orb_true_iff, negb_true_iff, truthy_string, existsb_exists.
  apply or_iff_compat_l. split.
  - intros (v & Hv & Hinc). apply Object_values_lookup in Hv as [k Hk].
    exists k, v. split; [done|]. by apply includes_contains.
  - intros (k & v & Hk & Hc). exists v. split.
    + apply Object_values_lookup. by exists k.
    + by apply includes_contains.
Qed.

Lemma strict_eq_string_spec (v : value) (s : string) :
  strict_eq_string v s = true ↔ v = VString s.
Proof.
  destruct v; simpl; try (split; [discriminate | congruence]).
  rewrite String.eqb_eq. split; congruence.
Qed.

Lemma matchFacet_spec (sel key : string) (r : obj) :
  matchFacet sel key r = true ↔ facet_match sel key r.
Proof.
  unfold matchFacet, facet_match.
  rewrite orb_true_iff, negb_true_iff, truthy_string, strict_eq_string_spec.
  destruct (decide (sel = "")); naive_solver.
Qed.

Lemma filter_selection {A} (P : A → Prop) (f : A → bool) (l : list A) :
  (∀ x, f x = true ↔ P x) → selection P l (List.filter f l).
Proof.
  intros Hf. induction l as [|x l IH]; simpl; [constructor|].
  destruct (f x) eqn:E.
  - constructor; [by apply Hf | done].
  - apply selection_drop; [|done]. rewrite <- Hf. congruence.
Qed.

Lemma selection_sublist {A} (P : A → Prop) (l out : list A) :
  selection P l out → out `sublist_of` l.
Proof. induction 1; by constructor. Qed.

Lemma selection_elem_of {A} (P : A → Prop) (l out : list A) (x : A) :
  selection P l out → x ∈ out ↔ x ∈ l ∧ P x.
Proof.
  induction 1 as [|y l out Hy _ IH|y l out Hy _ IH];
    rewrite ?elem_of_cons, ?IH; [set_solver | naive_solver | naive_solver].
Qed.

Lemma selection_all {A} (P : A → Prop) (l out : list A) :
  selection P l out → Forall P l → out = l.
Proof.
  induction 1; inversion 1; subst; [done | by f_equal; auto | done].
Qed.

Lemma keep_row_spec (st : State) (rk tk gk : string) (r : obj) :
  keep_row st rk tk gk r = true ↔
  text_match (search st) r ∧ facet_match (roleFilter st) rk r
  ∧ facet_match (teamFilter st) tk r ∧ facet_match (regionFilter st) gk r.
Proof.
  unfold keep_row.
  rewrite !andb_true_iff, matchSearch_spec, !matchFacet_spec. tauto.
Qed.

(** On every dataset and filter state, [filter] returns a result; the
    rows returned are the rows of the dataset that contain the query in
    one of their values, case ignored (or any row when the query is
    empty), and that carry, for each facet with a non-empty selection, the
    selection itself, as a text, under the key of the facet: the first
    header naming the facet, or the empty label.  They come as often and
    in the order they stand in the dataset, hence as a subsequence of it,
    and the empty filter state returns the rows of the dataset as they
    are. *)
Lemma filter_selects_by_the_keys (d : Dataset) (f : FilterState) :
  (∃ rk tk gk out,
     Spec.filter d f = Ok out ∧
     resolves "role" (ds_headers d) rk ∧ resolves "team" (ds_headers d) tk ∧
     resolves "region" (ds_headers d) gk ∧
     selection (λ r, text_match (query f) r ∧ facet_match (role_sel f) rk r
                     ∧ facet_match (team_sel f) tk r
                     ∧ facet_match (region_sel f) gk r)
               (ds_rows d) out ∧
     out `sublist_of` ds_rows d)
  ∧ Spec.filter d no_filter = Ok (ds_rows d).
Proof.
  assert (Hsel : ∀ g, ∃ rk tk gk out,
     Spec.filter d g = Ok out ∧
     resolves "role" (ds_headers d) rk ∧ resolves "team" (ds_headers d) tk ∧
     resolves "region" (ds_headers d) gk ∧
     selection (λ r, text_match (query g) r ∧ facet_match (role_sel g) rk r
                     ∧ facet_match (team_sel g) tk r
                     ∧ facet_match (region_sel g) gk r)
               (ds_rows d) out).
  { intros g. destruct (render_dense d g unsorted) as (rk & tk & gk & Hr & Ht & Hg & E).
    exists rk, tk, gk, (filteredData (state_of d g unsorted) rk tk gk).
    unfold Spec.filter. rewrite E. repeat split; try done.
    apply filter_selection. intros r. apply keep_row_spec. }
  split.
  - destruct (Hsel f) as (rk & tk & gk & out & E & Hr & Ht & Hg & S).
    exists rk, tk, gk, out. repeat split; try done.
    by eapply selection_sublist.
  - destruct (Hsel no_filter) as (rk & tk & gk & out & E & _ & _ & _ & S).
    rewrite E. f_equal. eapply selection_all; [done|].
    apply Forall_forall. intros r _. unfold text_match, facet_match. simpl.
    by repeat split; [left|..].
Qed.

(** C1, at failing inputs.  Three sheets on which the rows returned are
    not the rows C1 words, [passes].  A sheet with a blank header and none
    that names the role: the role facet resolves to no header, so that a
    selection on it excludes no row; yet with the offered option "x"
    selected, the filter keeps the row that holds "x" under the blank
    header and drops the other.  A sheet whose team column holds the
    number 100: the option offered is that number, its option element
    hands over the text "100", and the text of the row under the resolved
    header is "100"; yet the filter drops the row, the number not being
    the text.  A sheet whose first row has an empty cell between two
    labels: the lookup of the role key raises, and no rows are filtered at
    all.  So [filter] does not return the passing rows on every dataset
    and filter state. *)
Theorem filter_keeps_other_rows_than_claimed :
  let blank := loadExcelFile [dense [VString "Name"; VString " "];
                              dense [VString "Alice"; VString "x"];
                              dense [VString "Bob"; VString "y"]] initial in
  let alice : obj := {[ "Name" := VString "Alice"; "" := VString "x" ]} in
  let bob : obj := {[ "Name" := VString "Bob"; "" := VString "y" ]} in
  let d := {| ds_headers := ["Name"; ""]; ds_rows := [alice; bob] |} in
  let f := select Role "x" no_filter in
  let numeric := loadExcelFile [dense [VString "Name"; VString "Team"];
                                dense [VString "Carl"; VNumber (of_Z 100)]] initial in
  let carl : obj := {[ "Name" := VString "Carl"; "Team" := VNumber (of_Z 100) ]} in
  let d' := {| ds_headers := ["Name"; "Team"]; ds_rows := [carl] |} in
  let f' := select Team "100" no_filter in
  let sparse := loadExcelFile [[Some (VString "Name"); None; Some (VString "Role")];
                               dense [VString "Dan"; VString "x"; VString "Top"]] initial in
  (headers blank = dense (ds_headers d) ∧ allData blank = ds_rows d
   ∧ resolved_header "role" (ds_headers d) = None
   ∧ facetOptions d Role = Ok [VString "x"; VString "y"]
   ∧ option_value (VString "x") = "x"
   ∧ passes d f alice ∧ passes d f bob
   ∧ Spec.filter d f = Ok [alice])
  ∧ (headers numeric = dense (ds_headers d') ∧ allData numeric = ds_rows d'
     ∧ resolved_header "team" (ds_headers d') = Some "Team"
     ∧ facetOptions d' Team = Ok [VNumber (of_Z 100)]
     ∧ option_value (VNumber (of_Z 100)) = "100"
     ∧ passes d' f' carl
     ∧ Spec.filter d' f' = Ok [])
  ∧ (headers sparse = [Some "Name"; None; Some "Role"]
     ∧ render sparse = Throw TypeError)
  ∧ ¬ filter_returns_the_passing_rows.
Proof.
  intros blank alice bob d f numeric carl d' f' sparse.
  assert (Hp : ∀ (d0 : Dataset) (f0 : FilterState) (r : obj),
             query f0 = "" →
             (role_sel f0 ≠ "" → ∀ h, resolved_header "role" (ds_headers d0) = Some h →
                                      cell_text r h = role_sel f0) →
             (team_sel f0 ≠ "" → ∀ h, resolved_header "team" (ds_headers d0) = Some h →
                                      cell_text r h = team_sel f0) →
             (region_sel f0 ≠ "" → ∀ h, resolved_header "region" (ds_headers d0) = Some h →
                                        cell_text r h = region_sel f0) →
             passes d0 f0 r).
  { intros d0 f0 r Hq H1 H2 H3. unfold passes, facet_clause, text_match.
    split; [by left|]. split; [exact H1|]. split; [exact H2 | exact H3]. }
  assert (Hcarl : passes d' f' carl).
  { apply Hp; [reflexivity|..]; intros H; [destruct H; reflexivity| |destruct H; reflexivity].
    intros h E. vm_compute in E. injection E as <-. vm_compute. reflexivity. }
  assert (Hfilter : Spec.filter d' f' = Ok []) by (vm_compute; reflexivity).
  split; [|split; [|split]].
  - split; [vm_compute; reflexivity|]. split; [vm_compute; reflexivity|].
    split; [vm_compute; reflexivity|]. split; [vm_compute; reflexivity|].
    split; [vm_compute; reflexivity|].
    split; [|split; [|vm_compute; reflexivity]].
    + apply Hp; [reflexivity|..]; intros H; [|destruct H; reflexivity..].
      intros h E. vm_compute in E. discriminate E.
    + apply Hp; [reflexivity|..]; intros H; [|destruct H; reflexivity..].
      intros h E. vm_compute in E. discriminate E.
  - split; [vm_compute; reflexivity|]. split; [vm_compute; reflexivity|].
    split; [vm_compute; reflexivity|]. split; [vm_compute; reflexivity|].
    split; [vm_compute; reflexivity|]. split; [exact Hcarl | exact Hfilter].
  - split; vm_compute; reflexivity.
  - intros H. destruct (H d' f') as (out & E & S).
    rewrite Hfilter in E. injection E as <-.
    assert (Hin : carl ∈ @nil obj).
    { apply (selection_elem_of _ _ _ carl S). split; [apply list_elem_of_here | exact Hcarl]. }
    apply elem_of_nil in Hin. exact Hin.
Qed.

(** ** Facets that are absent from the headers *)

Lemma resolves_absent (c : facet) (hs : list string) (k : string) :
  absent c hs → resolves (target c) hs k → k = "".
Proof.
  intros Ha Hr. eapply resolves_unique; [exact Hr|]. by right.
Qed.

Lemma filter_none {A} (f : A → bool) (l : list A) :
  Forall (λ x, f x = false) l → List.filter f l = [].
Proof. induction 1 as [|x l E _ IH]; simpl; [done|]. by rewrite E. Qed.

Lemma matchFacet_empty_label (sel : string) (r : obj) :
  sel ≠ "" → r !! "" = None → matchFacet sel "" r = false.
Proof.
  intros Hsel Hr. apply not_true_iff_false. rewrite matchFacet_spec.
  intros H. specialize (H Hsel). unfold Get in H. simpl in H.
  by rewrite Hr in H.
Qed.

(** On a dataset where no header names the facet and no row has a value
    under the empty label, the filter without a selection on that facet
    returns the rows that meet the query and the selections of the other
    facets, and the filter with a non-empty selection on it would return
    no row.  No such selection can be made there, the facet offering no
    option: see [absent_facet_offers_no_option]. *)
Lemma absent_facet_selection (d : Dataset) (c : facet) (f : FilterState) (sel : string) :
  absent c (ds_headers d) →
  Forall (λ r : obj, r !! "" = None) (ds_rows d) →
  (∃ (keys : facet → string) out,
     Spec.filter d (select c "" f) = Ok out ∧
     (∀ c', resolves (target c') (ds_headers d) (keys c')) ∧
     selection (λ r, text_match (query f) r ∧
                     ∀ c', c' ≠ c → facet_match (selected c' f) (keys c') r)
               (ds_rows d) out)
  ∧ (sel ≠ "" → Spec.filter d (select c sel f) = Ok []).
Proof.
  intros Ha Hrows. split.
  - destruct (render_dense d (select c "" f) unsorted)
      as (rk & tk & gk & Hr & Ht & Hg & E).
    exists (λ c', match c' with Role => rk | Team => tk | Region => gk end),
           (filteredData (state_of d (select c "" f) unsorted) rk tk gk).
    unfold Spec.filter. rewrite E. split; [done|]. split; [by intros []|].
    apply filter_selection. intros r. rewrite keep_row_spec.
    destruct c; simpl; unfold facet_match at 1 2 3; split.
    all: try (intros (Hq & H1 & H2 & H3); split; [done|]; by intros []).
    all: intros [Hq H]; repeat split; try done.
    all: first [ by apply (H Role) | by apply (H Team) | by apply (H Region) ].
  - intros Hsel.
    destruct (render_dense d (select c sel f) unsorted)
      as (rk & tk & gk & Hr & Ht & Hg & E).
    unfold Spec.filter. rewrite E. simpl. f_equal. unfold filteredData.
    apply filter_none. cbn [allData state_of].
    eapply Forall_impl; [exact Hrows|]. intros r Hr0. unfold keep_row.
    destruct c; cbn [roleFilter teamFilter regionFilter state_of select
                     role_sel team_sel region_sel].
    + rewrite (resolves_absent Role _ _ Ha Hr), (matchFacet_empty_label _ _ Hsel Hr0).
      by rewrite !andb_false_r.
    + rewrite (resolves_absent Team _ _ Ha Ht), (matchFacet_empty_label _ _ Hsel Hr0).
      by rewrite !andb_false_r.
    + rewrite (resolves_absent Region _ _ Ha Hg), (matchFacet_empty_label _ _ Hsel Hr0).
      by rewrite !andb_false_r.
Qed.

(** ** Ingestion *)

Lemma resize_drop_step (row : array value) (n i : nat) :
  resize (S n) None (drop i row)
  = default None (row !! i) :: resize n None (drop (S i) row).
Proof.
  destruct (row !! i) as [c|] eqn:E.
  - by rewrite (drop_S _ _ _ E).
  - apply lookup_ge_None in E. rewrite !drop_ge by lia. by rewrite !resize_nil.
Qed.

Lemma index_lookup (row : array value) (i : nat) :
  index row i = default VUndefined (default None (row !! i)).
Proof. unfold index. by destruct (row !! i) as [[v|]|]. Qed.

Lemma assign_cells_zip (hdrs : array string) (i : nat) (row : array value) (o : obj) :
  assign_cells hdrs i row o
  = foldl store_cell o (zip hdrs (resize (length hdrs) None (drop i row))).
Proof.
  revert i o. induction hdrs as [|h hdrs IH]; intros i o; [done|].
  cbn [length]. rewrite resize_drop_step. cbn [zip zip_with foldl assign_cells].
  destruct h as [h|]; rewrite IH; f_equal.
  unfold store_cell. cbn [fst snd]. by rewrite index_lookup.
Qed.

Lemma make_row_zip (hdrs : array string) (row : array value) :
  make_row hdrs row = zip_row hdrs row.
Proof. unfold make_row, zip_row. by rewrite assign_cells_zip. Qed.

Lemma Put_values (Q : value → Prop) (o : obj) (k : string) (v : value) :
  map_Forall (λ _, Q) o → Q v → map_Forall (λ _, Q) (Put o k v).
Proof.
  intros Ho Hv. unfold Put. destruct (String.eqb k "__proto__"); [done|].
  by apply map_Forall_insert_2.
Qed.

Lemma store_cells_values (Q : value → Prop) (pairs : list (option string * option value)) (o : obj) :
  map_Forall (λ _, Q) o →
  Forall (λ p, Q (or (default VUndefined p.2) (VString ""))) pairs →
  map_Forall (λ _, Q) (foldl store_cell o pairs).
Proof.
  intros Ho Hp. revert o Ho. induction Hp as [|p pairs Hp _ IH]; intros o Ho; [done|].
  simpl. apply IH. unfold store_cell. destruct (p.1); [by apply Put_values | done].
Qed.

Lemma Forall_zip_snd {A B} (P : B → Prop) (l1 : list A) (l2 : list B) :
  Forall P l2 → Forall (λ p, P p.2) (zip l1 l2).
Proof.
  intros H. revert l1. induction H; intros [|a l1]; simpl; constructor; auto.
Qed.

(** Every value of a row is the content of one of the cells under the
    headers. *)
Lemma zip_row_values (Q : value → Prop) (hdrs : array string) (row : array value) :
  Q (VString "") →
  Forall (λ c, Q (or (default VUndefined c) (VString ""))) row →
  map_Forall (λ _, Q) (zip_row hdrs row).
Proof.
  intros Q0 Hrow. apply store_cells_values; [apply map_Forall_empty|].
  apply (Forall_zip_snd (λ c, Q (or (default VUndefined c) (VString "")))).
  apply Forall_resize; [exact Q0 | exact Hrow].
Qed.

Lemma or_falsy (v w : value) : ToBoolean v = false → or v w = w.
Proof. unfold or. by intros ->. Qed.

Lemma or_truthy (v w : value) : ToBoolean v = true → or v w = v.
Proof. unfold or. by intros ->. Qed.

Lemma falsy_cell_stored_empty (c : option value) :
  falsy_cell c → or (default VUndefined c) (VString "") = VString "".
Proof. destruct c as [v|]; simpl; [apply or_falsy | done]. Qed.

Lemma has_content_spec (r : obj) : has_content r = true ↔ with_content r.
Proof.
  unfold has_content, with_content. rewrite existsb_exists. split.
  - intros (v & Hv & Hne). apply Object_values_lookup in Hv as [k Hk].
    exists k, v. split; [done|]. intros ->. discriminate Hne.
  - intros (k & v & Hk & Hne). exists v. split.
    + apply Object_values_lookup. by exists k.
    + unfold not_empty_string. apply negb_true_iff, not_true_iff_false.
      by rewrite strict_eq_string_spec.
Qed.

Lemma all_empty_no_content (r : obj) :
  map_Forall (λ _ v, v = VString "") r → ¬ with_content r.
Proof. intros H (k & v & Hk & Hne). by apply Hne, (H k). Qed.

(** A data row of falsy cells only leaves no row in the sheet. *)
Lemma falsy_row_dropped (hdrs : array string) (rest : list (array value)) (row : array value) :
  Forall falsy_cell row →
  zip_row hdrs row ∉ List.filter has_content (List.map (make_row hdrs) rest).
Proof.
  intros Hrow Hin. apply list_elem_of_In, filter_In in Hin as [_ Hc].
  apply has_content_spec in Hc. revert Hc. apply all_empty_no_content.
  apply zip_row_values; [done|].
  eapply Forall_impl; [exact Hrow|]. apply falsy_cell_stored_empty.
Qed.


(** C4, counterexample.  Loading the empty grid from the initial state
    ends the loading and sets no error. *)
Lemma empty_sheet_counterexample :
  loadExcelFile [] initial = setLoading false initial
  ∧ error (loadExcelFile [] initial) = None
  ∧ ¬ empty_sheet_is_an_error.
Proof.
  split; [done|]. split; [done|]. intros [e He]. discriminate He.
Qed.

(** C4, amended.  On the empty grid ingestion raises no error: it leaves
    the headers, the rows and the error of the state as they are and only
    ends the loading, so that no dataset, whole or partial, comes of it.
    On a grid with a first row ingestion succeeds: it sets the headers and
    the rows, ends the loading and leaves the error as it is. *)
Theorem loadExcelFile_raises_no_error (first : array value) (rest : list (array value)) (st : State) :
  loadExcelFile [] st = setLoading false st
  ∧ error (loadExcelFile [] st) = error st
  ∧ headers (loadExcelFile [] st) = headers st
  ∧ allData (loadExcelFile [] st) = allData st
  ∧ error (loadExcelFile (first :: rest) st) = error st
  ∧ loading (loadExcelFile (first :: rest) st) = false
  ∧ headers (loadExcelFile (first :: rest) st) = header_row first
  ∧ allData (loadExcelFile (first :: rest) st)
    = List.filter has_content (List.map (make_row (header_row first)) rest).
Proof. by repeat split. Qed.

Lemma or_index_blank_falsy (row : array value) (i : nat) :
  or (index (blank_falsy row) i) (VString "") = or (index row i) (VString "").
Proof.
  unfold index. revert i. induction row as [|c row IH]; intros [|i]; simpl; try done.
  destruct c as [v|]; [|done].
  destruct (ToBoolean v) eqn:E; [done|]. by rewrite (or_falsy v).
Qed.

Lemma assign_cells_blank_falsy (hdrs : array string) (i : nat) (row : array value) (o : obj) :
  assign_cells hdrs i (blank_falsy row) o = assign_cells hdrs i row o.
Proof.
  revert i o. induction hdrs as [|[h|] hdrs IH]; intros i o; simpl; [done|..].
  - by rewrite IH, or_index_blank_falsy.
  - apply IH.
Qed.

Lemma Put_lookup (o : obj) (h k : string) (v : value) :
  Put o h v !! k
  = if decide (h = k ∧ h ≠ "__proto__") then Some v else o !! k.
Proof.
  unfold Put. destruct (String.eqb_spec h "__proto__") as [->|Hne].
  - case_decide; [naive_solver | done].
  - rewrite lookup_insert. repeat case_decide; naive_solver.
Qed.

Lemma assign_cells_keys (hdrs : array string) (i : nat) (row : array value) (o : obj) (k : string) :
  is_Some (assign_cells hdrs i row o !! k)
  ↔ is_Some (o !! k) ∨ (Some k ∈ hdrs ∧ k ≠ "__proto__").
Proof.
  revert i o. induction hdrs as [|[h|] hdrs IH]; intros i o; simpl.
  - rewrite elem_of_nil. tauto.
  - rewrite IH, Put_lookup, elem_of_cons. case_decide as Hd.
    + destruct Hd as [-> ?]. split; [|by left]. intros _. right. split; [by left | done].
    + split; [naive_solver|]. intros [?|[[E|?] ?]]; [by left | | by right].
      injection E as ->. by destruct Hd.
  - rewrite IH, elem_of_cons. naive_solver.
Qed.

Lemma assign_cells_skip (hdrs : array string) (i : nat) (row : array value) (o : obj) (k : string) :
  Some k ∉ hdrs → assign_cells hdrs i row o !! k = o !! k.
Proof.
  revert i o. induction hdrs as [|[h|] hdrs IH]; intros i o Hk; simpl; [done|..].
  - rewrite IH by set_solver. rewrite Put_lookup. case_decide; [|done].
    set_solver.
  - apply IH. set_solver.
Qed.

Lemma assign_cells_last (hdrs : array string) (i j : nat) (row : array value) (o : obj) (h : string) :
  hdrs !! j = Some (Some h) →
  (∀ j', (j < j')%nat → hdrs !! j' ≠ Some (Some h)) →
  h ≠ "__proto__" →
  assign_cells hdrs i row o !! h = Some (or (index row (i + j)) (VString "")).
Proof.
  revert i j o. induction hdrs as [|x hdrs IH]; intros i j o Hj Hlast Hp; [done|].
  destruct j as [|j].
  - simpl in Hj. injection Hj as ->. simpl.
    rewrite assign_cells_skip.
    + rewrite Put_lookup, Nat.add_0_r. by rewrite decide_True.
    + intros Hin. apply list_elem_of_lookup in Hin as [j' Hj'].
      by apply (Hlast (S j')); [lia|].
  - simpl in Hj.
    assert (Hrest : assign_cells hdrs (S i) row
                      (match x with Some h' => Put o h' (or (index row i) (VString "")) | None => o end) !! h
                    = Some (or (index row (S i + j)) (VString ""))).
    { apply IH; [done| |done]. intros j' Hlt. apply (Hlast (S j')). lia. }
    replace (i + S j)%nat with (S i + j)%nat by lia.
    by destruct x.
Qed.

(** C10.  The rows of the sheet are built from the data rows.  Under a
    header the row holds the empty text where the cell below that header
    is falsy, be it the number 0, [false], [null] or a missing cell (the
    last column of the label counting, and the label "__proto__" apart,
    which an assignment does not store).  A data row of falsy cells only
    leaves no row in the sheet; and the state after ingestion, from which
    filtering, faceting and sorting are computed, is the same as if the
    falsy cells of the data rows had been absent. *)
Theorem falsy_cells_are_ingested_as_absent
    (first : array value) (rest : list (array value)) (st : State) :
  let hdrs := header_row first in
  (∀ r, r ∈ allData (loadExcelFile (first :: rest) st) →
        ∃ row, row ∈ rest ∧ r = make_row hdrs row)
  ∧ (∀ row j h,
       hdrs !! j = Some (Some h) →
       (∀ j', (j < j')%nat → hdrs !! j' ≠ Some (Some h)) →
       h ≠ "__proto__" →
       ToBoolean (index row j) = false →
       make_row hdrs row !! h = Some (VString ""))
  ∧ (∀ v, ToBoolean v = false → or v (VString "") = VString "")
  ∧ List.map (λ v, or v (VString ""))
             [VNumber (of_Z 0); VBool false; VNull; VUndefined; VString ""; VNumber NaN]
    = List.map VString [""; ""; ""; ""; ""; ""]
  ∧ (∀ row, Forall falsy_cell row →
            make_row hdrs row ∉ allData (loadExcelFile (first :: rest) st))
  ∧ (∀ row, make_row hdrs (blank_falsy row) = make_row hdrs row)
  ∧ loadExcelFile (first :: List.map blank_falsy rest) st
    = loadExcelFile (first :: rest) st
  ∧ render (loadExcelFile (first :: List.map blank_falsy rest) st)
    = render (loadExcelFile (first :: rest) st).
Proof.
  intros hdrs.
  assert (Hrow : ∀ row, make_row hdrs (blank_falsy row) = make_row hdrs row).
  { intros row. apply assign_cells_blank_falsy. }
  assert (E : loadExcelFile (first :: List.map blank_falsy rest) st
              = loadExcelFile (first :: rest) st).
  { cbn [loadExcelFile]. fold hdrs. rewrite List.map_map.
    by rewrite (map_ext _ _ Hrow). }
  split.
  { cbn [loadExcelFile allData setLoading set_sheet]. fold hdrs. intros r Hr.
    apply list_elem_of_In, filter_In in Hr as [Hr _].
    apply in_map_iff in Hr as (row & <- & Hin). exists row.
    split; [by apply list_elem_of_In | done]. }
  split.
  { intros row j h Hj Hlast Hp Hf. unfold make_row.
    rewrite (assign_cells_last hdrs 0 j row ∅ h Hj Hlast Hp). simpl.
    by rewrite (or_falsy _ _ Hf). }
  split; [intros v; apply or_falsy|]. split; [done|].
  split; [|split; [done|split; [done|by rewrite E]]].
  intros row Hf. rewrite make_row_zip. by apply falsy_row_dropped.
Qed.

(** ** Sorting *)

Section Sort.

Context {A : Type} (cmp : A → A → Z).

Lemma insert_perm (x : A) (l : list A) : insert cmp x l ≡ₚ x :: l.
Proof.
  induction l as [|y l IH]; simpl; [done|].
  destruct (0 <? cmp x y); [|done]. rewrite IH. apply Permutation_swap.
Qed.

Lemma sort_perm (l : list A) : sort cmp l ≡ₚ l.
Proof.
  induction l as [|x l IH]; simpl; [done|]. by rewrite insert_perm, IH.
Qed.

Lemma insert_sublist (x : A) (l : list A) : l `sublist_of` insert cmp x l.
Proof.
  induction l as [|y l IH]; simpl; [by constructor|].
  destruct (0 <? cmp x y); [by constructor | by apply sublist_cons].
Qed.

(** An inserted element stops before every element it does not exceed. *)
Lemma insert_precedes (x y : A) (l : list A) :
  y ∈ l → cmp x y <= 0 → precedes x y (insert cmp x l).
Proof.
  intros Hy Hxy. unfold precedes. induction l as [|z l IH]; [by inversion Hy|].
  simpl. destruct (0 <? cmp x z) eqn:E.
  - apply sublist_cons, IH. apply elem_of_cons in Hy as [->|Hy]; [|done].
    apply Z.ltb_lt in E. lia.
  - apply sublist_skip. by apply singleton_sublist_l.
Qed.

(** Of two elements the earlier stays first when it does not exceed the
    later. *)
Lemma sort_precedes (l1 l2 l3 : list A) (x y : A) :
  cmp x y <= 0 → precedes x y (sort cmp (l1 ++ x :: l2 ++ y :: l3)).
Proof.
  intros Hxy. induction l1 as [|z l1 IH]; simpl.
  - apply insert_precedes; [|done]. rewrite sort_perm. set_solver.
  - unfold precedes. etrans; [exact IH | apply insert_sublist].
Qed.

End Sort.

(** Sorting by a comparator that looks at one component only sorts that
    component. *)
Lemma sort_map {A B} (g : B → A) (cmp : A → A → Z) (l : list B) :
  List.map g (sort (λ p q, cmp (g p) (g q)) l) = sort cmp (List.map g l).
Proof.
  assert (Hins : ∀ x l, List.map g (insert (λ p q, cmp (g p) (g q)) x l)
                        = insert cmp (g x) (List.map g l)).
  { intros x l'. induction l' as [|y l' IH]; simpl; [done|].
    destruct (0 <? cmp (g x) (g y)); simpl; by rewrite ?IH. }
  induction l as [|x l IH]; simpl; [done|]. by rewrite Hins, IH.
Qed.

Lemma positions_from_snd {A} (n : nat) (l : list A) :
  List.map snd (positions_from n l) = l.
Proof. revert n. induction l as [|x l IH]; intros n; simpl; by rewrite ?IH. Qed.

Lemma positions_from_lookup {A} (n j : nat) (l : list A) (b : A) :
  l !! j = Some b →
  ∃ l2 l3, positions_from n l = l2 ++ ((n + j)%nat, b) :: l3.
Proof.
  revert n j. induction l as [|x l IH]; intros n [|j] H; simplify_eq/=.
  - exists [], (positions_from (S n) l). by rewrite Nat.add_0_r.
  - destruct (IH (S n) j H) as (l2 & l3 & ->).
    exists ((n, x) :: l2), l3. by replace (n + S j)%nat with (S n + j)%nat by lia.
Qed.

Lemma positions_from_split {A} (n i j : nat) (l : list A) (a b : A) :
  l !! i = Some a → l !! j = Some b → (i < j)%nat →
  ∃ l1 l2 l3,
    positions_from n l = l1 ++ ((n + i)%nat, a) :: l2 ++ ((n + j)%nat, b) :: l3.
Proof.
  revert n i j. induction l as [|x l IH]; intros n i j Hi Hj Hlt; [done|].
  destruct i as [|i], j as [|j]; try lia; simplify_eq/=.
  - destruct (positions_from_lookup (S n) j l b Hj) as (l2 & l3 & ->).
    exists [], l2, l3.
    by replace (n + 0)%nat with n by lia; replace (n + S j)%nat with (S n + j)%nat by lia.
  - destruct (IH (S n) i j Hi Hj ltac:(lia)) as (l1 & l2 & l3 & ->).
    exists ((n, x) :: l1), l2, l3.
    by replace (n + S i)%nat with (S n + i)%nat by lia;
       replace (n + S j)%nat with (S n + j)%nat by lia.
Qed.

Lemma compareRows_symmetric_zero (hs : array string) (col : Z) (asc : bool) (a b : obj) :
  compareRows hs col asc a b = 0 → compareRows hs col asc b a = 0.
Proof.
  unfold compareRows, gt. destruct (col <? 0); [done|].
  rewrite (andb_comm (negb (isNaN (Get b _)))).
  destruct (lt _ _), (lt _ _), asc; done.
Qed.

(** The order the language prescribes for a consistent comparator, which
    [sort] computes, keeps ties in place.  Let the rows be sorted with
    their positions attached, the comparator looking at the rows only: the
    outcome is [sortedRows], each row with the position it came from, and
    whenever the comparator finds two rows equal, the one that stood first
    in the input stands first in the outcome. *)
Lemma sort_is_stable (hs : array string) (col : Z) (asc : bool)
    (rows : list obj) (i j : nat) (a b : obj) :
  rows !! i = Some a → rows !! j = Some b → (i < j)%nat →
  compareRows hs col asc a b = 0 →
  let out := sort (λ p q, compareRows hs col asc p.2 q.2) (positions rows) in
  List.map snd out = sortedRows hs col asc rows
  ∧ out ≡ₚ positions rows
  ∧ precedes (i, a) (j, b) out.
Proof.
  intros Hi Hj Hlt Hcmp out. subst out. split; [|split].
  - unfold sortedRows.
    rewrite (sort_map snd (compareRows hs col asc)). unfold positions.
    by rewrite positions_from_snd.
  - apply sort_perm.
  - unfold positions.
    destruct (positions_from_split 0 i j rows a b Hi Hj Hlt) as (l1 & l2 & l3 & ->).
    apply (sort_precedes (λ p q, compareRows hs col asc p.2 q.2)). simpl. lia.
Qed.

(** ** The comparator *)

Lemma number_compare_antisym (x y : number) :
  JSNumber.compare y x = option_map CompOpp (JSNumber.compare x y).
Proof.
  destruct x as [|[]|m1 k1], y as [|[]|m2 k2]; simpl; try done.
  by rewrite Z.compare_antisym.
Qed.

Lemma number_compare_defined (x y : number) :
  JSNumber.isNaN x = false → JSNumber.isNaN y = false →
  ∃ c, JSNumber.compare x y = Some c.
Proof. destruct x as [|[]|], y as [|[]|]; simpl; try done; eauto. Qed.

(** The comparator of the component is the comparison of the
    specification when both values parse as numbers, and when both are
    text. *)
Lemma compareRows_compare_values (hs : array string) (col : Z) (asc : bool) (a b : obj) :
  0 <= col →
  let va := Get a (sort_key hs col) in
  let vb := Get b (sort_key hs col) in
  (isNaN va = false ∧ isNaN vb = false)
  ∨ (∃ sa sb, va = VString sa ∧ vb = VString sb) →
  compareRows hs col asc a b = compare_values asc va vb.
Proof.
  intros Hcol va vb H. unfold compareRows, compare_values, parses, gt.
  replace (col <? 0) with false by (symmetry; apply Z.ltb_ge; lia).
  fold va vb.
  destruct (isNaN va) eqn:Ea, (isNaN vb) eqn:Eb; cbn [negb andb].
  4: { unfold lt.
       destruct (number_compare_defined (ToNumber va) (ToNumber vb) Ea Eb) as [c Hc].
       cbn [ToNumber]. unfold JSNumber.ltb.
       rewrite (number_compare_antisym (ToNumber va)), Hc. by destruct c. }
  all: destruct H as [[? ?] | (sa & sb & Ha & Hb)]; try done.
  all: rewrite Ha, Hb; cbn [lt ToString]; unfold JSString.ltb, String.ltb.
  all: rewrite (String.compare_antisym sa sb).
  all: by destruct (String.compare sb sa).
Qed.

(** The numeric branch is taken on the column "10", "9", "2": sorted
    ascending it reads "2", "9", "10". *)
Example sort_numeric_text_column :
  let st := loadExcelFile [dense [VString "Score"]; dense [VString "10"];
                           dense [VString "9"]; dense [VString "2"]] initial in
  List.map (λ r, Get r "Score") (sortedRows (headers st) 0 true (allData st))
  = [VString "2"; VString "9"; VString "10"].
Proof. by vm_compute. Qed.

(** C2, at a failing input.  A sheet whose column "Score" holds the number
    5 in one row and the text "abc" in the next: the two values do not
    both parse as numbers, and as texts "5" stands before "abc"; the
    comparator of the component answers 0 both ways, in either
    direction. *)
Theorem compareRows_number_against_text :
  let st := loadExcelFile [dense [VString "Score"]; dense [VNumber (of_Z 5)];
                           dense [VString "abc"]] initial in
  let a := {[ "Score" := VNumber (of_Z 5) ]} : obj in
  let b := {[ "Score" := VString "abc" ]} : obj in
  headers st = dense ["Score"]
  ∧ allData st = [a; b]
  ∧ parses (Get b "Score") = None
  ∧ compare_values true (Get a "Score") (Get b "Score") = -1
  ∧ compare_values true (Get b "Score") (Get a "Score") = 1
  ∧ compareRows (headers st) 0 true a b = 0
  ∧ compareRows (headers st) 0 true b a = 0
  ∧ compareRows (headers st) 0 false a b = 0.
Proof. by vm_compute. Qed.

(** C9, at a failing input.  A sheet whose column "Score" holds 3, 1,
    the text "N/A" and 2.  The comparator ties "N/A" with every number:
    3 ties with "N/A" and "N/A" with 2 while 3 exceeds 2, so that it is not
    a consistent comparator on these rows and the language leaves their
    order to the engine.  "N/A" ties with 2 and stands before it in the
    sheet; in the order the V8 engine returns, 1, 2, 3, "N/A", it stands
    after it: the output is not stable. *)
Theorem sort_moves_a_tie_on_a_mixed_column :
  let st := loadExcelFile [dense [VString "Score"]; dense [VNumber (of_Z 3)];
                           dense [VNumber (of_Z 1)]; dense [VString "N/A"];
                           dense [VNumber (of_Z 2)]] initial in
  let three : obj := {[ "Score" := VNumber (of_Z 3) ]} in
  let one : obj := {[ "Score" := VNumber (of_Z 1) ]} in
  let na : obj := {[ "Score" := VString "N/A" ]} in
  let two : obj := {[ "Score" := VNumber (of_Z 2) ]} in
  let cmp := compareRows (headers st) 0 true in
  let out := [one; two; three; na] in
  allData st = [three; one; na; two]
  ∧ cmp three na = 0 ∧ cmp na two = 0 ∧ cmp three two = 1
  ∧ ¬ consistent cmp (allData st)
  ∧ V8.ArrayTimSort cmp (allData st) = Some out
  ∧ allData st !! 2%nat = Some na ∧ allData st !! 3%nat = Some two
  ∧ out !! 3%nat = Some na ∧ out !! 1%nat = Some two
  ∧ ¬ stable cmp (allData st) out.
Proof.
  intros st three one na two cmp out.
  assert (E : allData st = [three; one; na; two]) by (vm_compute; reflexivity).
  assert (H1 : cmp three na = 0) by (vm_compute; reflexivity).
  assert (H2 : cmp na two = 0) by (vm_compute; reflexivity).
  assert (H3 : cmp three two = 1) by (vm_compute; reflexivity).
  split; [exact E|]. split; [exact H1|]. split; [exact H2|]. split; [exact H3|].
  split; [|split; [vm_compute; reflexivity|]].
  - intros Hc. rewrite E in Hc.
    destruct (Hc three na two) as (_ & _ & Ht & _);
      [apply list_elem_of_here | do 2 apply list_elem_of_further; apply list_elem_of_here
       | do 3 apply list_elem_of_further; apply list_elem_of_here |].
    rewrite (Ht H1 H2) in H3. discriminate H3.
  - rewrite E. split; [reflexivity|]. split; [reflexivity|].
    split; [reflexivity|]. split; [reflexivity|].
    intros Hs. destruct (Hs 2%nat 3%nat na two eq_refl eq_refl) as (i' & j' & Hi & Hj & Hlt);
      [lia | exact H2 |].
    assert (Hscore : ∀ (k : nat) (v : value) (r : obj),
               out !! k = Some r → r !! "Score" = Some v →
               (k = 0%nat ∧ v = VNumber (of_Z 1)) ∨ (k = 1%nat ∧ v = VNumber (of_Z 2))
               ∨ (k = 2%nat ∧ v = VNumber (of_Z 3)) ∨ (k = 3%nat ∧ v = VString "N/A")).
    { intros k v r Hk Hv. destruct k as [|[|[|[|k]]]]; simpl in Hk; [..|discriminate Hk];
        injection Hk as <-; vm_compute in Hv; injection Hv as <-; auto. }
    destruct (Hscore i' (VString "N/A") na Hi) as [[_ G]|[[_ G]|[[_ G]|[-> _]]]];
      [vm_compute; reflexivity | discriminate G..|].
    destruct (Hscore j' (VNumber (of_Z 2)) two Hj) as [[_ G]|[[-> _]|[[_ G]|[_ G]]]];
      [vm_compute; reflexivity | discriminate G | lia | discriminate G..].
Qed.

(** On the scores "10", "9" and "2", where the comparator is consistent,
    the procedure of the engine returns the order prescribed. *)
Example ArrayTimSort_numeric_text_column :
  let st := loadExcelFile [dense [VString "Score"]; dense [VString "10"];
                           dense [VString "9"]; dense [VString "2"]] initial in
  V8.ArrayTimSort (compareRows (headers st) 0 true) (allData st)
  = Some (sortedRows (headers st) 0 true (allData st)).
Proof. vm_compute. reflexivity. Qed.

(** ** Facet options *)

Lemma same_value_zero_refl (v : value) : same_value_zero v v = true.
Proof.
  destruct v as [| |b|n|s|]; simpl; try done.
  - by destruct b.
  - destruct n as [|[]|m k]; simpl; try done.
    unfold JSNumber.eqb. simpl. by rewrite Z.compare_refl.
  - apply String.eqb_refl.
Qed.

Lemma unique_elem_of (seen l : list value) (v : value) :
  v ∈ unique seen l → v ∈ l ∧ existsb (same_value_zero v) seen = false.
Proof.
  revert seen. induction l as [|h l IH]; intros seen; simpl; [by inversion 1|].
  destruct (existsb (same_value_zero h) seen) eqn:E.
  - intros H. destruct (IH _ H). split; [by right | done].
  - intros [->|H]%elem_of_cons; [split; [by left | done]|].
    destruct (IH _ H) as [? Hs]. split; [by right|].
    simpl in Hs. by apply orb_false_iff in Hs as [_ ?].
Qed.

Lemma unique_covers (seen l : list value) (v : value) :
  v ∈ l →
  existsb (same_value_zero v) seen = true
  ∨ ∃ w, w ∈ unique seen l ∧ same_value_zero v w = true.
Proof.
  revert seen. induction l as [|h l IH]; intros seen; simpl; [by inversion 1|].
  intros [->|H]%elem_of_cons.
  - destruct (existsb (same_value_zero h) seen); [by left|].
    right. exists h. split; [by left | apply same_value_zero_refl].
  - destruct (existsb (same_value_zero h) seen).
    + by apply IH.
    + destruct (IH (h :: seen) H) as [Hs | (w & Hw & E)].
      * simpl in Hs. apply orb_true_iff in Hs as [Hs|Hs]; [|by left].
        right. exists h. split; [by left | done].
      * right. exists w. split; [by right | done].
Qed.

Lemma unique_distinct (seen l : list value) :
  ForallOrdPairs (λ a b, same_value_zero b a = false) (unique seen l).
Proof.
  revert seen. induction l as [|h l IH]; intros seen; simpl; [constructor|].
  destruct (existsb (same_value_zero h) seen); [apply IH|].
  constructor; [|apply IH]. apply Forall_forall. intros w Hw.
  apply unique_elem_of in Hw as [_ Hs]. simpl in Hs.
  by apply orb_false_iff in Hs as [? _].
Qed.

Lemma string_leb_lt (a b : string) :
  String.leb a b = true ↔ a = b ∨ OrderedTypeEx.String_as_OT.lt a b.
Proof.
  unfold String.leb. rewrite <- OrderedTypeEx.String_as_OT.cmp_lt. unfold OrderedTypeEx.String_as_OT.cmp.
  destruct (String.compare a b) eqn:E.
  - apply String.compare_eq_iff in E. naive_solver.
  - naive_solver.
  - split; [done|]. intros [->|?]; [|done].
    pose proof (String.compare_antisym b b) as A. rewrite E in A. discriminate A.
Qed.

Lemma string_leb_trans (a b c : string) :
  String.leb a b = true → String.leb b c = true → String.leb a c = true.
Proof.
  rewrite !string_leb_lt. intros [->|H1] [->|H2]; auto.
  right. by eapply OrderedTypeEx.String_as_OT.lt_trans.
Qed.

Lemma default_compare_le (x y : value) :
  default_compare x y <= 0 ↔ text_le x y.
Proof.
  unfold default_compare, text_le, JSString.ltb, String.ltb, String.leb.
  rewrite (String.compare_antisym (ToString x) (ToString y)).
  destruct (String.compare (ToString y) (ToString x)); simpl; split; try done; lia.
Qed.

Lemma default_compare_total (x y : value) : text_le x y ∨ text_le y x.
Proof. apply String.leb_total. Qed.

Lemma insert_sorted (x : value) (l : list value) :
  Sorted text_le l → Sorted text_le (insert default_compare x l).
Proof.
  induction 1 as [|y l Hs IH Hd]; simpl; [by repeat constructor|].
  destruct (0 <? default_compare x y) eqn:E.
  - constructor; [done|].
    assert (Hyx : text_le y x).
    { destruct (default_compare_total x y) as [H|H]; [|done].
      apply default_compare_le in H. apply Z.ltb_lt in E. lia. }
    destruct l as [|z l]; simpl in *; [by constructor|].
    destruct (0 <? default_compare x z); constructor; [|done].
    by inversion Hd.
  - repeat constructor; try done. apply default_compare_le. apply Z.ltb_ge in E. lia.
Qed.

Lemma sort_sorted (l : list value) : Sorted text_le (sort default_compare l).
Proof. induction l; simpl; [constructor | by apply insert_sorted]. Qed.

(** The options of a facet whose key is [key]: the truthy values of the
    column, one of each, in ascending order of their text. *)
Lemma facetValues_spec (key : string) (rows : list obj) :
  let column := List.map (λ d, Get d key) rows in
  let options := facetValues key rows in
  (∀ v, v ∈ options → ToBoolean v = true ∧ v ∈ column)
  ∧ (∀ v, v ∈ column → ToBoolean v = true →
          ∃ w, w ∈ options ∧ same_value_zero v w = true)
  ∧ (∃ u, options ≡ₚ u ∧ ForallOrdPairs (λ a b, same_value_zero b a = false) u)
  ∧ StronglySorted text_le options.
Proof.
  intros column options. subst options. unfold facetValues. fold column.
  set (u := unique [] (List.filter ToBoolean column)).
  assert (Hperm : sort default_compare u ≡ₚ u) by apply sort_perm.
  repeat split.
  - rewrite Hperm in H. apply unique_elem_of in H as [H _].
    apply list_elem_of_In, filter_In in H. tauto.
  - rewrite Hperm in H. apply unique_elem_of in H as [H _].
    apply list_elem_of_In, filter_In in H. apply list_elem_of_In. tauto.
  - intros v Hv Ht.
    destruct (unique_covers [] (List.filter ToBoolean column) v) as [?|(w & Hw & E)];
      [|done|].
    + apply list_elem_of_In, filter_In. split; [by apply list_elem_of_In | done].
    + exists w. split; [by rewrite Hperm | done].
  - exists u. split; [done | apply unique_distinct].
  - apply Sorted_StronglySorted; [|apply sort_sorted].
    intros a b c. apply string_leb_trans.
Qed.

(** On a dataset the options of a facet are the values under the key the
    facet resolves to. *)
Lemma facetOptions_resolved (d : Dataset) (c : facet) :
  ∃ k, resolves (target c) (ds_headers d) k
       ∧ facetOptions d c = Ok (facetValues k (ds_rows d)).
Proof.
  destruct (render_dense d no_filter unsorted) as (rk & tk & gk & Hr & Ht & Hg & E).
  unfold facetOptions. rewrite E.
  destruct c; [by exists rk | by exists tk | by exists gk].
Qed.

(** An absent facet offers no option where no row holds a truthy value
    under the empty label. *)
Lemma absent_facet_offers_no_option (d : Dataset) (c : facet) :
  absent c (ds_headers d) →
  Forall (λ r : obj, ToBoolean (Get r "") = false) (ds_rows d) →
  facetOptions d c = Ok [].
Proof.
  intros Ha Hrows. destruct (facetOptions_resolved d c) as (k & Hk & ->).
  rewrite (resolves_absent c _ _ Ha Hk). f_equal. unfold facetValues.
  replace (List.filter ToBoolean (List.map (λ r : obj, Get r "") (ds_rows d))) with (@nil value);
    [done|].
  symmetry. apply filter_none. induction Hrows; constructor; done.
Qed.

(** C7, at a failing input.  A sheet with the headers "Player" and a
    blank: no header names the team facet, which is absent.  The options
    offered for it are the values under the blank header, and with the
    option "Red" selected the filter keeps the one row that holds "Red"
    there, where without a selection it keeps both rows. *)
Theorem absent_facet_filters_by_the_blank_header :
  let st := loadExcelFile [dense [VString "Player"; VString " "];
                           dense [VString "Ann"; VString "Red"];
                           dense [VString "Ben"; VString "Blue"]] initial in
  let ann : obj := {[ "Player" := VString "Ann"; "" := VString "Red" ]} in
  let ben : obj := {[ "Player" := VString "Ben"; "" := VString "Blue" ]} in
  let d := {| ds_headers := ["Player"; ""]; ds_rows := [ann; ben] |} in
  headers st = dense (ds_headers d) ∧ allData st = ds_rows d
  ∧ absent Team (ds_headers d)
  ∧ facetOptions d Team = Ok [VString "Blue"; VString "Red"]
  ∧ option_value (VString "Red") = "Red"
  ∧ Spec.filter d (select Team "" no_filter) = Ok [ann; ben]
  ∧ Spec.filter d (select Team "Red" no_filter) = Ok [ann]
  ∧ ¬ absent_facet_is_ignored.
Proof.
  intros st ann ben d.
  assert (Ha : absent Team (ds_headers d)).
  { repeat constructor; by apply not_includes_names. }
  split; [vm_compute; reflexivity|]. split; [vm_compute; reflexivity|]. split; [exact Ha|].
  split; [vm_compute; reflexivity|]. split; [vm_compute; reflexivity|].
  split; [vm_compute; reflexivity|]. split; [vm_compute; reflexivity|].
  intros H. specialize (H d Team no_filter "Red" Ha).
  vm_compute in H. discriminate H.
Qed.

(** C8, at a failing input.  A sheet with the headers "Name" and a blank:
    the blank is trimmed to the empty label, no header names the role
    facet, and the role key falls back to the empty label too, so that the
    role options are the values of the column under the blank header. *)
Theorem facetOptions_of_absent_facet_reads_blank_column :
  let st := loadExcelFile [dense [VString "Name"; VString " "];
                           dense [VString "Alice"; VString "x"]] initial in
  let d := {| ds_headers := ["Name"; ""];
              ds_rows := [ {[ "Name" := VString "Alice"; "" := VString "x" ]} ] |} in
  headers st = dense (ds_headers d)
  ∧ allData st = ds_rows d
  ∧ absent Role (ds_headers d)
  ∧ facetOptions d Role = Ok [VString "x"]
  ∧ (∃ v, render st = Ok v ∧ roleKey v = "" ∧ roles v = [VString "x"]).
Proof.
  split; [by vm_compute|]. split; [by vm_compute|]. split.
  - repeat constructor; by apply not_includes_names.
  - split; [by vm_compute|]. eexists. split; [by vm_compute|]. by split.
Qed.

(** ** Dates *)

Lemma TimeClip_of_Z (t : Z) :
  Z.abs t <= 8640000000000000 → TimeClip (of_Z t) = Some t.
Proof.
  intros H. unfold TimeClip, of_Z, JSNumber.ltb, JSNumber.compare, truncate, pow10.
  simpl Z.of_N. rewrite Z.pow_0_r, !Z.mul_1_r, Z.quot_1_r.
  destruct (Z.compare_spec 8640000000000000 (Z.abs t)); try done. lia.
Qed.

Lemma add_mul_of_Z (a b c : Z) :
  JSNumber.add (of_Z a) (JSNumber.mul (of_Z b) (of_Z c)) = of_Z (a + b * c).
Proof.
  unfold of_Z. simpl. unfold pow10. simpl Z.of_N. rewrite Z.pow_0_r.
  f_equal. lia.
Qed.

Lemma add_NaN (x : number) : JSNumber.add x NaN = NaN.
Proof. by destruct x. Qed.

Lemma isNaN_NaN (x : number) : JSNumber.isNaN x = true → x = NaN.
Proof. by destruct x. Qed.

(** Texts without the letter T, as [split] sees them. *)
Lemma split_head_app (a b : string) :
  JSString.split_head "T" a = a → JSString.split_head "T" b = b →
  JSString.split_head "T" (a +:+ b) = a +:+ b.
Proof.
  intros Ha Hb. induction a as [|c a IH]; [done|].
  rewrite append_cons. simpl in *. destruct (Ascii.eqb c "T"); [done|].
  f_equal. apply IH. congruence.
Qed.

Lemma split_head_T (a r : string) :
  JSString.split_head "T" a = a →
  JSString.split_head "T" (a +:+ "T" +:+ r) = a.
Proof.
  intros Ha. induction a as [|c a IH]; [done|].
  rewrite append_cons. simpl in *. destruct (Ascii.eqb c "T"); [done|].
  f_equal. apply IH. congruence.
Qed.

Lemma split_head_uint (u : Decimal.uint) :
  JSString.split_head "T" (NilEmpty.string_of_uint u) = NilEmpty.string_of_uint u.
Proof. induction u; simpl; congruence. Qed.

Lemma split_head_of_N (n : N) :
  JSString.split_head "T" (JSString.of_N n) = JSString.of_N n.
Proof.
  unfold JSString.of_N, NilZero.string_of_uint.
  destruct (N.to_uint n); try done; apply split_head_uint.
Qed.

Lemma split_head_padded (w : nat) (n : N) :
  JSString.split_head "T" (JSString.padded w n) = JSString.padded w n.
Proof.
  unfold JSString.padded. apply split_head_app; [|apply split_head_of_N].
  induction (w - _)%nat; simpl; congruence.
Qed.

Lemma split_head_iso_date (day : Z) :
  JSString.split_head "T" (iso_date_of_day day) = iso_date_of_day day.
Proof.
  assert (Hy : ∀ y, JSString.split_head "T" (year_string y) = year_string y).
  { intros y. unfold year_string. destruct (_ && _); [apply split_head_padded|].
    apply split_head_app; [by destruct (_ <? _) | apply split_head_padded]. }
  unfold iso_date_of_day. destruct (FieldsFromDay day) as [[y m] d].
  unfold iso_date.
  apply split_head_app; [apply Hy|].
  apply split_head_app; [done|].
  apply split_head_app; [apply split_head_padded|].
  apply split_head_app; [done | apply split_head_padded].
Qed.

(** The date rendered for a valid time value is the day it falls on in
    UTC. *)
Lemma iso_date_of_time (t : Z) :
  (s ← toISOString (Some t); mret (JSString.split_head "T" s))
  = Ok (iso_date_of_day (t / msPerDay)).
Proof.
  simpl. unfold mret, result_ret, mbind, result_bind. simpl. f_equal.
  apply split_head_T, split_head_iso_date.
Qed.

(** *** The calendar of the engine

    [YearFromDay] is YearFromTime as ECMAScript has it, the year whose
    first day is the last one not after the day; and the fields of
    consecutive day numbers are consecutive dates of the Gregorian
    calendar. *)

Lemma YearFromDay_bounds (day : Z) :
  DayFromYear (YearFromDay day) <= day < DayFromYear (YearFromDay day + 1).
Proof.
  unfold YearFromDay.
  destruct (Z.ltb_spec day (DayFromYear (1970 + day * 400 / 146097))) as [H1|H1];
  [|destruct (Z.leb_spec (DayFromYear (1970 + day * 400 / 146097 + 1)) day) as [H2|H2]].
  all: unfold DayFromYear in *.
  all: Z.div_mod_to_equations; lia.
Qed.

Lemma DayFromYear_mono (y y' : Z) : y <= y' → DayFromYear y <= DayFromYear y'.
Proof. intros H. unfold DayFromYear. Z.div_mod_to_equations; lia. Qed.

Lemma YearFromDay_unique (day y : Z) :
  DayFromYear y <= day < DayFromYear (y + 1) → YearFromDay day = y.
Proof.
  intros H. pose proof (YearFromDay_bounds day) as B.
  destruct (Z.lt_trichotomy (YearFromDay day) y) as [L | [E | G]]; [|done|].
  - pose proof (DayFromYear_mono (YearFromDay day + 1) y ltac:(lia)). lia.
  - pose proof (DayFromYear_mono (y + 1) (YearFromDay day) ltac:(lia)). lia.
Qed.

Lemma year_length (y : Z) :
  DayFromYear (y + 1) - DayFromYear y = if InLeapYear y then 366 else 365.
Proof.
  unfold InLeapYear. destruct (Z.eqb_spec (DayFromYear (y + 1) - DayFromYear y) 366) as [E|E]; [done|].
  unfold DayFromYear in *. Z.div_mod_to_equations; lia.
Qed.

Lemma leap_year_InLeapYear (y : Z) : leap_year y = InLeapYear y.
Proof.
  unfold leap_year, InLeapYear, DayFromYear.
  destruct (Z.eqb_spec (y mod 4) 0), (Z.eqb_spec (y mod 100) 0), (Z.eqb_spec (y mod 400) 0);
    cbn [andb orb negb]; symmetry.
  all: first [ apply Z.eqb_eq | apply Z.eqb_neq ].
  all: Z.div_mod_to_equations; lia.
Qed.

Lemma MonthFromDayInYear_cases (leap : bool) (d : Z) :
  MonthFromDayInYear leap d =
  let l := if leap then 1 else 0 in
  if d <? 31 then 0 else if d <? 59 + l then 1 else if d <? 90 + l then 2
  else if d <? 120 + l then 3 else if d <? 151 + l then 4
  else if d <? 181 + l then 5 else if d <? 212 + l then 6
  else if d <? 243 + l then 7 else if d <? 273 + l then 8
  else if d <? 304 + l then 9 else if d <? 334 + l then 10 else 11.
Proof. by destruct leap. Qed.

Ltac split_ltb :=
  repeat match goal with
         | |- context [if ?a <? ?b then _ else _] =>
             destruct (Z.ltb_spec a b); try lia
         end.

Ltac eval_tables :=
  repeat match goal with
         | |- context [DaysBeforeMonth ?l ?m] =>
             let v := eval vm_compute in (DaysBeforeMonth l m) in
             change (DaysBeforeMonth l m) with v
         | H : context [DaysBeforeMonth ?l ?m] |- _ =>
             let v := eval vm_compute in (DaysBeforeMonth l m) in
             change (DaysBeforeMonth l m) with v in H
         end.

(** Within a year: the month and the day of the month of the day after. *)
Lemma month_step (leap : bool) (diy : Z) :
  0 <= diy → diy + 1 < (if leap then 366 else 365) →
  let m := MonthFromDayInYear leap diy in
  let d := diy - DaysBeforeMonth leap m + 1 in
  let m' := MonthFromDayInYear leap (diy + 1) in
  let d' := diy + 1 - DaysBeforeMonth leap m' + 1 in
  let dim := DaysBeforeMonth leap (m + 1) - DaysBeforeMonth leap m in
  0 <= m <= 11 ∧ 1 <= d ∧
  (m', d') = if d <? dim then (m, d + 1) else (m + 1, 1).
Proof.
  intros H0 H1. rewrite !MonthFromDayInYear_cases. destruct leap; cbn zeta.
  all: split_ltb; eval_tables; split_ltb.
  all: split; [lia|split; [lia|]]; f_equal; lia.
Qed.

(** The last day of a year. *)
Lemma month_last (leap : bool) (diy : Z) :
  diy + 1 = (if leap then 366 else 365) →
  MonthFromDayInYear leap diy = 11
  ∧ diy - DaysBeforeMonth leap 11 + 1 = 31.
Proof.
  intros H. rewrite MonthFromDayInYear_cases. destruct leap; cbn zeta.
  all: split_ltb; eval_tables; lia.
Qed.

Lemma days_in_month_table (y m : Z) :
  0 <= m <= 11 →
  days_in_month y (m + 1)
  = DaysBeforeMonth (InLeapYear y) (m + 1) - DaysBeforeMonth (InLeapYear y) m.
Proof.
  intros H. unfold days_in_month. rewrite leap_year_InLeapYear.
  assert (Hm : m = 0 ∨ m = 1 ∨ m = 2 ∨ m = 3 ∨ m = 4 ∨ m = 5 ∨ m = 6 ∨ m = 7
               ∨ m = 8 ∨ m = 9 ∨ m = 10 ∨ m = 11) by lia.
  destruct (InLeapYear y); intuition (subst; reflexivity).
Qed.

(** The fields of the engine advance as the calendar does. *)
Lemma date_of_day_succ (day : Z) :
  date_of_day (day + 1) = next_day (date_of_day day).
Proof.
  unfold date_of_day, FieldsFromDay.
  pose proof (YearFromDay_bounds day) as B.
  remember (YearFromDay day) as y eqn:Hy. clear Hy.
  pose proof (year_length y) as L.
  pose proof (year_length (y + 1)) as L'.
  pose proof (YearFromDay_unique (day + 1) y) as U.
  pose proof (YearFromDay_unique (day + 1) (y + 1)) as U'.
  pose proof (days_in_month_table y) as T.
  remember (InLeapYear y) as leap eqn:Hleap.
  remember (InLeapYear (y + 1)) as leap' eqn:Hleap'.
  remember (DayFromYear (y + 1 + 1)) as next' eqn:Hnext'. clear Hnext'.
  remember (DayFromYear (y + 1)) as next eqn:Hnext.
  remember (DayFromYear y) as start eqn:Hstart.
  remember (day - start) as diy eqn:Hdiy.
  assert (Hrange : 0 <= diy < (if leap then 366 else 365)) by (destruct leap; lia).
  destruct (Z.eq_dec (diy + 1) (if leap then 366 else 365)) as [E|E].
  - destruct (month_last leap diy E) as [-> ->].
    rewrite U' by (destruct leap, leap'; lia).
    rewrite <- Hnext, <- Hleap'.
    replace (day + 1 - next) with 0 by (destruct leap; lia).
    unfold next_day. cbn [year month day_of_month].
    rewrite (T 11) by lia. by destruct leap, leap'.
  - rewrite U by (destruct leap; lia).
    rewrite <- Hstart, <- Hleap.
    replace (day + 1 - start) with (diy + 1) by lia.
    destruct (month_step leap diy) as (Hm & Hd & Hs); [lia | destruct leap; lia |].
    cbv zeta in Hs. unfold next_day. cbn [year month day_of_month].
    rewrite T by done.
    set (m := MonthFromDayInYear leap diy) in *.
    set (m' := MonthFromDayInYear leap (diy + 1)) in *.
    set (d' := diy + 1 - DaysBeforeMonth leap m' + 1) in *.
    set (c := _ <? _) in *. destruct c eqn:Elt; subst c.
    + by injection Hs as -> ->.
    + injection Hs as -> ->. apply Z.ltb_ge in Elt.
      assert (m <> 11).
      { clearbody m. intros ->. clear -Elt Hrange E. destruct leap; eval_tables; lia. }
      by replace (m + 1 <? 12) with true by (symmetry; apply Z.ltb_lt; lia).
Qed.

Lemma date_of_day_epoch : date_of_day (-25569) = epoch_date.
Proof. reflexivity. Qed.

Lemma date_of_day_plus (n : N) :
  date_of_day (-25569 + Z.of_N n) = plus_days epoch_date n.
Proof.
  induction n as [|n IH] using N.peano_ind; [done|].
  unfold plus_days in *. rewrite N.iter_succ, <- IH, <- date_of_day_succ.
  f_equal. lia.
Qed.

Lemma iso_date_of_day_render (day : Z) :
  iso_date_of_day day = render_date (date_of_day day).
Proof.
  unfold iso_date_of_day, render_date, date_of_day.
  by destruct (FieldsFromDay day) as [[y m] d].
Qed.

(** The day number of 1899-12-30. *)
Lemma epoch_day : MakeDay 1899 11 30 = -25569.
Proof. reflexivity. Qed.

(** [new Date(1899, 11, 30)]: the local midnight of 1899-12-30. *)
Lemma epoch_time (LocalTZA : Z → Z) :
  Date_of_fields LocalTZA 1899 11 30
  = TimeClip (of_Z (-2209161600000 - LocalTZA (MakeDate (MakeDay 1899 11 30) 0))).
Proof. reflexivity. Qed.

(** The date rendered for a whole serial [n], in an environment whose
    local time was [offset] milliseconds ahead of UTC at the local
    midnight of 1899-12-30. *)
Lemma parseGoogleSheetsDate_day (LocalTZA : Z → Z) (n : Z) :
  let offset := LocalTZA (MakeDate (MakeDay 1899 11 30) 0) in
  Z.abs offset <= msPerDay → 1 <= n <= 100000000 →
  parseGoogleSheetsDate LocalTZA (VNumber (of_Z n))
  = Ok (iso_date_of_day ((MakeDate (MakeDay 1899 11 30 + n) 0 - offset) / msPerDay)).
Proof.
  intros offset Hoff Hn. unfold parseGoogleSheetsDate.
  replace (ToBoolean (VNumber (of_Z n))) with true.
  2: { simpl. symmetry. apply negb_true_iff, Z.eqb_neq. lia. }
  cbn [negb]. rewrite epoch_time. fold offset.
  rewrite epoch_day. unfold MakeDate, msPerDay in *.
  rewrite TimeClip_of_Z by lia. cbn [getTime ToNumber].
  rewrite add_mul_of_Z. unfold Date_of_number. rewrite TimeClip_of_Z by lia.
  rewrite iso_date_of_time. unfold msPerDay. do 3 f_equal. lia.
Qed.

(** C5, east of UTC.  [decodeDate n] being the rendering of 1899-12-30
    plus [n] days of the calendar: where local time was ahead of UTC (by a
    day at most) at the local midnight of 1899-12-30, the date rendered
    for a whole serial [n] is [decodeDate (n - 1)], a day early; where it
    was not ahead (and less than a day behind), it is [decodeDate n].  So
    the rendering changes with the timezone of the environment: serial 1
    is "1899-12-31" in UTC and "1899-12-30" one hour east of it, and
    serial 44927 is "2023-01-01" in UTC and "2022-12-31" one hour east of
    it. *)
Theorem parseGoogleSheetsDate_depends_on_timezone (LocalTZA : Z → Z) (n : Z) :
  let offset := LocalTZA (MakeDate (MakeDay 1899 11 30) 0) in
  1 <= n <= 100000000 →
  (0 < offset <= msPerDay →
   parseGoogleSheetsDate LocalTZA (VNumber (of_Z n))
   = Ok (decodeDate (Z.to_N (n - 1))))
  ∧ (- msPerDay < offset <= 0 →
     parseGoogleSheetsDate LocalTZA (VNumber (of_Z n))
     = Ok (decodeDate (Z.to_N n)))
  ∧ decodeDate 1 = "1899-12-31"
  ∧ decodeDate 44927 = "2023-01-01"
  ∧ parseGoogleSheetsDate (λ _, 0) (VNumber (of_Z 1)) = Ok "1899-12-31"
  ∧ parseGoogleSheetsDate (λ _, 3600000) (VNumber (of_Z 1)) = Ok "1899-12-30"
  ∧ parseGoogleSheetsDate (λ _, 0) (VNumber (of_Z 44927)) = Ok "2023-01-01"
  ∧ parseGoogleSheetsDate (λ _, 3600000) (VNumber (of_Z 44927)) = Ok "2022-12-31"
  ∧ parseGoogleSheetsDate (λ _, 3600000) (VNumber (of_Z 0)) = Ok "".
Proof.
  intros offset Hn. unfold decodeDate. split; [|split].
  - intros Hoff. rewrite parseGoogleSheetsDate_day; fold offset; unfold msPerDay in *; [|lia..].
    rewrite iso_date_of_day_render, <- date_of_day_plus. do 3 f_equal.
    rewrite epoch_day. unfold MakeDate, msPerDay.
    symmetry. apply Z.div_unique with (86400000 - offset); lia.
  - intros Hoff. rewrite parseGoogleSheetsDate_day; fold offset; unfold msPerDay in *; [|lia..].
    rewrite iso_date_of_day_render, <- date_of_day_plus. do 3 f_equal.
    rewrite epoch_day. unfold MakeDate, msPerDay.
    symmetry. apply Z.div_unique with (- offset); lia.
  - by vm_compute.
Qed.

(** C6, on text that is no number.  For a truthy value that does not
    parse as a number, such as the text "abc", the time value is invalid
    and [toISOString] raises a [RangeError], whatever the timezone. *)
Theorem parseGoogleSheetsDate_throws_on_unparseable (LocalTZA : Z → Z) (v : value) :
  ToBoolean v = true → isNaN v = true →
  parseGoogleSheetsDate LocalTZA v = Throw RangeError.
Proof.
  intros Ht Hn. unfold parseGoogleSheetsDate. rewrite Ht. cbn [negb].
  apply isNaN_NaN in Hn. rewrite Hn. cbn [JSNumber.mul]. by rewrite add_NaN.
Qed.

(** A serial beyond the range of [Date] raises as well. *)
Example parseGoogleSheetsDate_throws_out_of_range :
  parseGoogleSheetsDate (λ _, 0) (VNumber (of_Z 1000000000)) = Throw RangeError.
Proof. by vm_compute. Qed.

(** A falsy serial is rendered as the empty text. *)
Lemma parseGoogleSheetsDate_falsy (LocalTZA : Z → Z) (v : value) :
  ToBoolean v = false → parseGoogleSheetsDate LocalTZA v = Ok "".
Proof. intros H. unfold parseGoogleSheetsDate. by rewrite H. Qed.

(** ** The sort settings *)

(** A click on a column header selects that column.  On a column that was
    not selected the direction becomes ascending; on the selected column
    the direction is reversed, so that a second click there restores the
    state; two clicks on a new column leave it descending.  The rows and
    the headers are not touched. *)
Theorem handleSort_selects_and_toggles (c : Z) (st : State) :
  sortCol (handleSort c st) = c
  ∧ (sortCol st ≠ c → sortAsc (handleSort c st) = true)
  ∧ (sortCol st = c → sortAsc (handleSort c st) = negb (sortAsc st))
  ∧ (sortCol st = c → handleSort c (handleSort c st) = st)
  ∧ sortCol (handleSort c (handleSort c st)) = c
  ∧ (sortCol st ≠ c → sortAsc (handleSort c (handleSort c st)) = false)
  ∧ allData (handleSort c st) = allData st
  ∧ headers (handleSort c st) = headers st.
Proof.
  destruct st as [rows hs q r t g col asc e l]. unfold handleSort.
  cbn [sortCol sortAsc allData headers search roleFilter teamFilter regionFilter error loading].
  destruct (Z.eqb_spec col c) as [->|E]; rewrite ?Z.eqb_refl, ?negb_involutive;
    repeat split; try done; intros; congruence.
Qed.

(** After a click on column [c] the header of [c] carries the class
    "sort-asc", or "sort-desc" when [c] was selected and ascending before;
    every other header carries the empty class. *)
Theorem thClass_marks_the_clicked_header (c j : Z) (st : State) :
  thClass (handleSort c st) c
    = (if (sortCol st =? c) && sortAsc st then "sort-desc" else "sort-asc")
  ∧ (j ≠ c → thClass (handleSort c st) j = "").
Proof.
  unfold thClass, handleSort. cbn [sortCol sortAsc].
  destruct (Z.eqb_spec (sortCol st) c) as [E|E].
  - rewrite E, Z.eqb_refl. split; [by destruct (sortAsc st)|].
    intros H. by destruct (Z.eqb_spec c j); [congruence|].
  - rewrite Z.eqb_refl. split; [done|].
    intros H. by destruct (Z.eqb_spec c j); [congruence|].
Qed.

(** ** The comparator *)

Lemma number_ltb_asym (x y : number) :
  JSNumber.ltb x y = true → JSNumber.ltb y x = false.
Proof.
  unfold JSNumber.ltb. rewrite (number_compare_antisym x y).
  by destruct (JSNumber.compare x y) as [[]|].
Qed.

Lemma string_ltb_asym (a b : string) : JSString.ltb a b = true → JSString.ltb b a = false.
Proof.
  unfold JSString.ltb, String.ltb. rewrite (String.compare_antisym b a).
  by destruct (String.compare a b).
Qed.

Lemma lt_asym (a b : value) : lt a b = true → lt b a = false.
Proof.
  destruct a, b; cbn [lt]; first [apply number_ltb_asym | apply string_ltb_asym].
Qed.

Lemma compareRows_swap (hs : array string) (col : Z) (asc : bool) (a b : obj) :
  compareRows hs col asc b a = - compareRows hs col asc a b.
Proof.
  unfold compareRows, gt. destruct (col <? 0); [done|].
  set (key := sort_key hs col).
  rewrite (andb_comm (negb (isNaN (Get b key)))).
  set (num := negb (isNaN (Get a key)) && negb (isNaN (Get b key))).
  set (va := if num then _ else Get a key). set (vb := if num then _ else Get b key).
  destruct (lt va vb) eqn:E1, (lt vb va) eqn:E2; try by destruct asc.
  pose proof (lt_asym _ _ E1). congruence.
Qed.

Lemma compareRows_negb (hs : array string) (col : Z) (asc : bool) (a b : obj) :
  compareRows hs col (negb asc) a b = - compareRows hs col asc a b.
Proof.
  unfold compareRows, gt. destruct (col <? 0); [done|].
  destruct (lt _ _); [by destruct asc|]. destruct (lt _ _); by destruct asc.
Qed.

(** The comparator of the rows is a sign: reversing the direction or
    swapping the two rows negates it, a row compares 0 with itself, and
    the result is -1, 0 or 1. *)
Theorem compareRows_direction_and_swap (hs : array string) (col : Z) (asc : bool) (a b : obj) :
  compareRows hs col (negb asc) a b = - compareRows hs col asc a b
  ∧ compareRows hs col asc b a = - compareRows hs col asc a b
  ∧ compareRows hs col asc a a = 0
  ∧ (compareRows hs col asc a b = -1 ∨ compareRows hs col asc a b = 0
     ∨ compareRows hs col asc a b = 1).
Proof.
  split; [apply compareRows_negb|]. split; [apply compareRows_swap|]. split.
  - pose proof (compareRows_swap hs col asc a a). lia.
  - unfold compareRows. destruct (col <? 0); [auto|].
    destruct (lt _ _); [destruct asc; auto|]. destruct (gt _ _); [destruct asc; auto | auto].
Qed.

(** ** Sorted outcomes *)

Lemma insert_Sorted {A} (cmp : A → A → Z) (R : A → A → Prop) (x : A) (l : list A) :
  (∀ y, y ∈ l → cmp x y <= 0 → R x y) →
  (∀ y, y ∈ l → 0 < cmp x y → R y x) →
  Sorted R l → Sorted R (insert cmp x l).
Proof.
  intros Hle Hgt Hs. induction Hs as [|y l Hs IH Hd]; simpl; [by repeat constructor|].
  destruct (0 <? cmp x y) eqn:E.
  - apply Z.ltb_lt in E. constructor.
    + apply IH; intros z Hz; [apply Hle | apply Hgt]; by right.
    + destruct l as [|z l]; simpl.
      * constructor. apply Hgt; [by left | done].
      * destruct (0 <? cmp x z); constructor.
        -- by inversion Hd.
        -- apply Hgt; [by left | done].
  - apply Z.ltb_ge in E. repeat constructor; try done. apply Hle; [by left | done].
Qed.

Lemma sort_Sorted {A} (cmp : A → A → Z) (R : A → A → Prop) (l : list A) :
  (∀ x y, x ∈ l → y ∈ l → cmp x y <= 0 → R x y) →
  (∀ x y, x ∈ l → y ∈ l → 0 < cmp x y → R y x) →
  Sorted R (sort cmp l).
Proof.
  intros Hle Hgt. induction l as [|x l IH]; simpl; [constructor|].
  apply insert_Sorted.
  - intros y Hy. rewrite sort_perm in Hy. apply Hle; [by left | by right].
  - intros y Hy. rewrite sort_perm in Hy. apply Hgt; [by left | by right].
  - apply IH; intros a b Ha Hb; [apply Hle | apply Hgt]; by right.
Qed.

Lemma sort_untouched {A} (cmp : A → A → Z) (l : list A) :
  (∀ x y, x ∈ l → y ∈ l → cmp x y <= 0) → sort cmp l = l.
Proof.
  intros H. induction l as [|x l IH]; simpl; [done|].
  rewrite IH by (intros a b Ha Hb; apply H; by right).
  destruct l as [|y l]; simpl; [done|].
  replace (0 <? cmp x y) with false; [done|].
  symmetry. apply Z.ltb_ge, H; [by left | right; by left].
Qed.

(** Without a column the rows stay as they are. *)
Lemma sortedRows_unsorted (hs : array string) (col : Z) (asc : bool) (rows : list obj) :
  col < 0 → sortedRows hs col asc rows = rows.
Proof.
  intros H. unfold sortedRows. apply sort_untouched. intros a b _ _.
  unfold compareRows. by replace (col <? 0) with true by (symmetry; apply Z.ltb_lt; lia).
Qed.

Lemma compareRows_undefined (hs : array string) (col : Z) (asc : bool) (a b : obj) :
  Get a (sort_key hs col) = VUndefined → Get b (sort_key hs col) = VUndefined →
  compareRows hs col asc a b = 0.
Proof.
  intros Ha Hb. unfold compareRows, gt. rewrite Ha, Hb.
  by destruct (col <? 0).
Qed.

(** With no column selected (a negative index), or with an index that
    names no header while no row has a cell labelled "undefined", sorting
    returns the rows as they are, in either direction. *)
Theorem sortedRows_without_a_column (hs : array string) (col : Z) (asc : bool) (rows : list obj) :
  (col < 0
   ∨ ((∀ h, hs !! Z.to_nat col ≠ Some (Some h))
      ∧ Forall (λ r : obj, r !! "undefined" = None) rows)) →
  sortedRows hs col asc rows = rows.
Proof.
  intros H. unfold sortedRows. apply sort_untouched. intros a b Ha Hb.
  destruct H as [H | [Hnone Hrows]].
  - unfold compareRows. by replace (col <? 0) with true by (symmetry; apply Z.ltb_lt; lia).
  - assert (Hkey : sort_key hs col = "undefined").
    { unfold sort_key. destruct (hs !! Z.to_nat col) as [[h|]|] eqn:E; try done.
      by destruct (Hnone h). }
    rewrite Forall_forall in Hrows.
    rewrite compareRows_undefined; [done|..]; rewrite Hkey; unfold Get; simpl.
    + by rewrite (Hrows a Ha).
    + by rewrite (Hrows b Hb).
Qed.

(** ** Columns of one kind *)

Lemma number_compare_denotes (x y : value) (n m : Z) :
  denotes x n → denotes y m →
  JSNumber.compare (ToNumber x) (ToNumber y) = Some (n ?= m).
Proof.
  intros (_ & Hx & _) (_ & Hy & _).
  destruct (ToNumber x) as [|bx|m1 k1], (ToNumber y) as [|by_|m2 k2];
    try (by repeat match goal with b : bool |- _ => destruct b end).
  simpl in *. injection Hx as Hx. injection Hy as Hy.
  apply Z.compare_eq in Hx, Hy.
  assert (P1 : 0 < pow10 k1) by (unfold pow10; apply Z.pow_pos_nonneg; lia).
  assert (P2 : 0 < pow10 k2) by (unfold pow10; apply Z.pow_pos_nonneg; lia).
  replace (pow10 0) with 1 in * by done. rewrite Z.mul_1_r in Hx, Hy. subst m1 m2.
  f_equal.
  replace (n * pow10 k1 * pow10 k2) with (n * (pow10 k1 * pow10 k2)) by ring.
  replace (m * pow10 k2 * pow10 k1) with (m * (pow10 k1 * pow10 k2)) by ring.
  assert (P : 0 < pow10 k1 * pow10 k2) by lia.
  destruct (Z.compare_spec n m) as [E|E|E].
  - subst. apply Z.compare_refl.
  - apply Z.compare_lt_iff. by apply Z.mul_lt_mono_pos_r.
  - apply Z.compare_gt_iff. by apply Z.mul_lt_mono_pos_r.
Qed.

Lemma compareRows_whole (hs : array string) (col : Z) (asc : bool) (a b : obj) (n m : Z) :
  0 <= col →
  denotes (Get a (sort_key hs col)) n → denotes (Get b (sort_key hs col)) m →
  compareRows hs col asc a b = directed asc (n ?= m).
Proof.
  intros Hcol Ha Hb.
  rewrite compareRows_compare_values; [|done|left; split; [apply Ha | apply Hb]].
  unfold compare_values, parses.
  rewrite (proj1 Ha), (proj1 Hb), (number_compare_denotes _ _ n m Ha Hb). done.
Qed.

Lemma compareRows_text (hs : array string) (col : Z) (asc : bool) (a b : obj) (s t : string) :
  0 <= col →
  plain_text (Get a (sort_key hs col)) s → plain_text (Get b (sort_key hs col)) t →
  compareRows hs col asc a b = directed asc (String.compare s t).
Proof.
  intros Hcol [Ha Na] [Hb Nb].
  rewrite compareRows_compare_values; [|done|right; by exists s, t].
  unfold compare_values, parses. rewrite Na. by rewrite Ha, Hb.
Qed.

Lemma string_compare_lt_trans (s t u : string) :
  String.compare s t = Lt → String.compare t u = Lt → String.compare s u = Lt.
Proof.
  intros H1 H2.
  pose proof (proj1 (OrderedTypeEx.String_as_OT.cmp_lt s t) H1) as L1.
  pose proof (proj1 (OrderedTypeEx.String_as_OT.cmp_lt t u) H2) as L2.
  exact (proj2 (OrderedTypeEx.String_as_OT.cmp_lt s u)
               (OrderedTypeEx.String_as_OT.lt_trans _ _ _ L1 L2)).
Qed.

Lemma string_compare_opp (s t : string) (c : comparison) :
  String.compare s t = c → String.compare t s = CompOpp c.
Proof. intros <-. apply String.compare_antisym. Qed.

Lemma string_compare_refl (s : string) : String.compare s s = Eq.
Proof.
  pose proof (String.compare_antisym s s) as A.
  by destruct (String.compare s s).
Qed.

Lemma string_compare_trans (c : comparison) (s t u : string) :
  String.compare s t = c → String.compare t u = c → String.compare s u = c.
Proof.
  destruct c.
  - intros H1 H2. apply String.compare_eq_iff in H1, H2. subst.
    apply string_compare_refl.
  - apply string_compare_lt_trans.
  - intros H1 H2. apply string_compare_opp in H1, H2. simpl in H1, H2.
    apply (string_compare_opp u s Lt). by eapply string_compare_lt_trans.
Qed.

Lemma Z_compare_trans (c : comparison) (x y z : Z) :
  (x ?= y) = c → (y ?= z) = c → (x ?= z) = c.
Proof.
  destruct c; rewrite ?Z.compare_eq_iff, ?Z.compare_lt_iff, ?Z.compare_gt_iff; lia.
Qed.

Lemma directed_sign (asc : bool) (c : comparison) :
  (directed asc c = 0 ↔ c = Eq)
  ∧ (directed asc c < 0 ↔ c = (if asc then Lt else Gt))
  ∧ (0 < directed asc c ↔ c = (if asc then Gt else Lt)).
Proof. destruct asc, c; simpl; repeat split; intros; try done; lia. Qed.

Lemma consistent_of_compare {A} (cmp : A → A → Z) (l : list A) (asc : bool)
    (kc : A → A → comparison) :
  (∀ a b, a ∈ l → b ∈ l → cmp a b = directed asc (kc a b)) →
  (∀ a, kc a a = Eq) →
  (∀ a b, kc a b = Eq → kc b a = Eq) →
  (∀ c a b d, kc a b = c → kc b d = c → kc a d = c) →
  consistent cmp l.
Proof.
  intros Hcmp Hrefl Hsym Htrans a b c Ha Hb Hc.
  rewrite !Hcmp by done.
  destruct (directed_sign asc (kc a a)) as (Eaa & _).
  destruct (directed_sign asc (kc a b)) as (Eab & Lab & Gab).
  destruct (directed_sign asc (kc b a)) as (Eba & _).
  destruct (directed_sign asc (kc b c)) as (Ebc & Lbc & Gbc).
  destruct (directed_sign asc (kc a c)) as (Eac & Lac & Gac).
  rewrite Eaa, Eab, Eba, Ebc, Eac, Lab, Lbc, Lac, Gab, Gbc, Gac.
  repeat split; eauto.
Qed.

(** On a column whose cells are all read as whole numbers that binary64
    holds exactly, and on a column whose cells are all texts that do not
    parse as numbers, the comparator of the rows is a consistent
    comparator, in either direction: there the language prescribes the
    order of the sorted rows. *)
Theorem compareRows_is_consistent_on_a_column_of_one_kind
    (hs : array string) (col : Z) (asc : bool) (rows : list obj) :
  0 <= col →
  (∃ whole, Forall (λ r, denotes (Get r (sort_key hs col)) (whole r)) rows)
  ∨ (∃ text, Forall (λ r, plain_text (Get r (sort_key hs col)) (text r)) rows) →
  consistent (compareRows hs col asc) rows.
Proof.
  intros Hcol [[whole H] | [text H]]; rewrite Forall_forall in H.
  - apply (consistent_of_compare _ _ asc (λ a b, whole a ?= whole b)).
    + intros a b Ha Hb. by apply compareRows_whole; auto.
    + intros a. apply Z.compare_refl.
    + intros a b. rewrite !Z.compare_eq_iff. congruence.
    + intros c a b d. apply Z_compare_trans.
  - apply (consistent_of_compare _ _ asc (λ a b, String.compare (text a) (text b))).
    + intros a b Ha Hb. by apply compareRows_text; auto.
    + intros a. apply string_compare_refl.
    + intros a b E. apply String.compare_eq_iff in E. rewrite E. apply string_compare_refl.
    + intros c a b d. apply string_compare_trans.
Qed.

(** On a column whose cells are all read as whole numbers that binary64
    holds exactly, the rows sorted ascending are the rows rearranged in
    non-decreasing order of those numbers, each row before all the later
    ones, and the rows sorted descending in non-increasing order. *)
Theorem sortedRows_orders_a_column_of_whole_numbers
    (hs : array string) (col : Z) (rows : list obj) (whole : obj → Z) :
  0 <= col →
  Forall (λ r, denotes (Get r (sort_key hs col)) (whole r)) rows →
  sortedRows hs col true rows ≡ₚ rows
  ∧ StronglySorted (λ a b, whole a <= whole b) (sortedRows hs col true rows)
  ∧ sortedRows hs col false rows ≡ₚ rows
  ∧ StronglySorted (λ a b, whole b <= whole a) (sortedRows hs col false rows).
Proof.
  intros Hcol Hrows. rewrite Forall_forall in Hrows.
  split; [apply sort_perm|]. split; [|split; [apply sort_perm|]].
  - apply Sorted_StronglySorted; [intros a b c; lia|].
    apply sort_Sorted; intros x y Hx Hy;
      rewrite (compareRows_whole hs col true x y _ _ Hcol (Hrows _ Hx) (Hrows _ Hy));
      destruct (Z.compare_spec (whole x) (whole y)); simpl; lia.
  - apply Sorted_StronglySorted; [intros a b c; lia|].
    apply sort_Sorted; intros x y Hx Hy;
      rewrite (compareRows_whole hs col false x y _ _ Hcol (Hrows _ Hx) (Hrows _ Hy));
      destruct (Z.compare_spec (whole x) (whole y)); simpl; lia.
Qed.

Lemma string_leb_compare (s t : string) :
  String.leb s t = true ↔ String.compare s t ≠ Gt.
Proof. unfold String.leb. by destruct (String.compare s t). Qed.

(** On a column whose cells are all texts that do not parse as numbers,
    the rows sorted ascending are the rows rearranged in the order of
    those texts by code unit, each row before all the later ones, and the
    rows sorted descending in the reverse order. *)
Theorem sortedRows_orders_a_column_of_texts
    (hs : array string) (col : Z) (rows : list obj) (text : obj → string) :
  0 <= col →
  Forall (λ r, plain_text (Get r (sort_key hs col)) (text r)) rows →
  sortedRows hs col true rows ≡ₚ rows
  ∧ StronglySorted (λ a b, String.leb (text a) (text b) = true) (sortedRows hs col true rows)
  ∧ sortedRows hs col false rows ≡ₚ rows
  ∧ StronglySorted (λ a b, String.leb (text b) (text a) = true) (sortedRows hs col false rows).
Proof.
  intros Hcol Hrows. rewrite Forall_forall in Hrows.
  split; [apply sort_perm|]. split; [|split; [apply sort_perm|]].
  - apply Sorted_StronglySorted; [intros a b c; apply string_leb_trans|].
    apply sort_Sorted; intros x y Hx Hy;
      rewrite (compareRows_text hs col true x y _ _ Hcol (Hrows _ Hx) (Hrows _ Hy)),
        string_leb_compare;
      pose proof (String.compare_antisym (text x) (text y)) as A;
      destruct (String.compare (text y) (text x)); simpl in A; rewrite ?A; simpl;
      intros; (lia || done).
  - apply Sorted_StronglySorted; [intros a b c H1 H2; by eapply string_leb_trans|].
    apply sort_Sorted; intros x y Hx Hy;
      rewrite (compareRows_text hs col false x y _ _ Hcol (Hrows _ Hx) (Hrows _ Hy)),
        string_leb_compare;
      pose proof (String.compare_antisym (text x) (text y)) as A;
      destruct (String.compare (text y) (text x)); simpl in A; rewrite ?A; simpl;
      intros; (lia || done).
Qed.

(** ** The rows of a sheet *)

(** Every row kept from a sheet has exactly the labels of the header row
    as its keys (the label "__proto__" apart, which an assignment does not
    store); each of its values is truthy or the empty text; and one of
    them at least is truthy. *)
Theorem ingested_rows_have_the_header_labels
    (first : array value) (rest : list (array value)) (st : State) (r : obj) :
  r ∈ allData (loadExcelFile (first :: rest) st) →
  (∀ k, is_Some (r !! k) ↔ Some k ∈ header_row first ∧ k ≠ "__proto__")
  ∧ (∀ k v, r !! k = Some v → ToBoolean v = true ∨ v = VString "")
  ∧ (∃ k v, r !! k = Some v ∧ ToBoolean v = true).
Proof.
  cbn [loadExcelFile allData setLoading set_sheet].
  intros Hr. apply list_elem_of_In, filter_In in Hr as [Hr Hc].
  apply in_map_iff in Hr as (row & <- & _). split; [|split].
  - intros k. unfold make_row. rewrite assign_cells_keys, lookup_empty.
    split; [intros [[? ?]|?]; done | by right].
  - rewrite make_row_zip. intros k v Hk.
    refine (zip_row_values (λ v, ToBoolean v = true ∨ v = VString "") _ row _ _ k v Hk);
      [by right|].
    apply Forall_forall. intros c _. unfold or.
    destruct (ToBoolean (default VUndefined c)) eqn:E; [by left | by right].
  - apply has_content_spec in Hc as (k & v & Hk & Hne). exists k, v. split; [done|].
    rewrite make_row_zip in Hk.
    assert (H : ToBoolean v = true ∨ v = VString "").
    { refine (zip_row_values (λ v, ToBoolean v = true ∨ v = VString "") _ row _ _ k v Hk);
        [by right|].
      apply Forall_forall. intros c _. unfold or.
      destruct (ToBoolean (default VUndefined c)) eqn:E; [by left | by right]. }
    by destruct H.
Qed.

(** Under a label the row object holds the cell of the last column that
    carries the label, or the empty text where that cell is falsy; the
    empty text also where the data row is too short to reach the
    column. *)
Theorem make_row_reads_the_last_cell_of_a_label
    (hdrs : array string) (row : array value) (j : nat) (h : string) :
  hdrs !! j = Some (Some h) →
  (∀ j', (j < j')%nat → hdrs !! j' ≠ Some (Some h)) →
  h ≠ "__proto__" →
  Get (make_row hdrs row) h = or (index row j) (VString "")
  ∧ ((length row <= j)%nat → Get (make_row hdrs row) h = VString "").
Proof.
  intros Hj Hlast Hp.
  assert (E : Get (make_row hdrs row) h = or (index row j) (VString "")).
  { unfold Get, make_row. rewrite (proj2 (String.eqb_neq _ _) Hp).
    by rewrite (assign_cells_last hdrs 0 j row ∅ h Hj Hlast Hp). }
  split; [done|]. intros Hlen. rewrite E.
  apply lookup_ge_None in Hlen. rewrite index_lookup.
  unfold array in *. by rewrite Hlen.
Qed.

(** ** Trimmed headers *)

Lemma trimEnd_idem (s : string) : JSString.trimEnd (JSString.trimEnd s) = JSString.trimEnd s.
Proof.
  induction s as [|c s IH]; [done|]. cbn [JSString.trimEnd].
  destruct (JSString.trimEnd s) as [|d t] eqn:E.
  - destruct (JSString.isWhiteSpace c) eqn:W; [done|].
    cbn [JSString.trimEnd]. by rewrite W.
  - cbn [JSString.trimEnd]. cbn [JSString.trimEnd] in IH.
    by rewrite IH.
Qed.

Lemma trimStart_fixed (s : string) :
  JSString.trimStart (JSString.trimStart s) = JSString.trimStart s.
Proof.
  induction s as [|c s IH]; [done|]. simpl.
  destruct (JSString.isWhiteSpace c) eqn:W; [done|]. simpl. by rewrite W.
Qed.

Lemma trimStart_trimEnd (s : string) :
  JSString.trimStart s = s → JSString.trimStart (JSString.trimEnd s) = JSString.trimEnd s.
Proof.
  destruct s as [|c s]; [done|]. intros H. cbn [JSString.trimEnd].
  simpl in H. destruct (JSString.isWhiteSpace c) eqn:W.
  - exfalso. clear -H W. 
    assert (L : ∀ t, (String.length (JSString.trimStart t) <= String.length t)%nat).
    { induction t as [|d t IHt]; simpl; [lia|]. destruct (JSString.isWhiteSpace d); simpl; lia. }
    pose proof (L s) as Hl. rewrite H in Hl. simpl in Hl. lia.
  - destruct (JSString.trimEnd s); simpl; by rewrite W.
Qed.

Lemma trim_idem (s : string) : JSString.trim (JSString.trim s) = JSString.trim s.
Proof.
  unfold JSString.trim.
  rewrite (trimStart_trimEnd (JSString.trimStart s)) by apply trimStart_fixed.
  apply trimEnd_idem.
Qed.

(** The labels taken from the first row of a sheet carry no white space
    at either end: trimming them again changes nothing. *)
Theorem headers_are_trimmed (first : array value) (rest : list (array value)) (st : State) (h : string) :
  Some h ∈ headers (loadExcelFile (first :: rest) st) →
  JSString.trim h = h
  ∧ JSString.trimStart h = h ∧ JSString.trimEnd h = h.
Proof.
  cbn [loadExcelFile headers setLoading set_sheet]. unfold header_row, array_map.
  intros Hin. apply list_elem_of_In, in_map_iff in Hin as ([v|] & E & _); [|done].
  injection E as <-. set (t := ToString _).
  split; [apply trim_idem|]. unfold JSString.trim. split.
  - apply trimStart_trimEnd, trimStart_fixed.
  - apply trimEnd_idem.
Qed.

(** ** The lookup of a facet key *)

(** The three outcomes of the lookup of a facet key.  Over headers
    without a hole of which none names the facet, the key is the empty
    text; where a header naming the facet comes after headers that do not
    and before any hole, the key is that header, the first one; and where
    a hole comes before any header naming the facet, the lookup raises a
    [TypeError]. *)
Theorem facetKey_outcomes (target : string) (hs : array string) :
  (∃ l, hs = dense l ∧ Forall (λ h, ¬ names target h) l
        ∧ facetKey target hs = Ok "")
  ∨ (∃ pre k post, hs = dense pre ++ Some k :: post
                   ∧ Forall (λ h, ¬ names target h) pre ∧ names target k
                   ∧ facetKey target hs = Ok k)
  ∨ (∃ pre post, hs = dense pre ++ None :: post
                 ∧ Forall (λ h, ¬ names target h) pre
                 ∧ facetKey target hs = Throw TypeError).
Proof.
  induction hs as [|[h|] hs IH]; simpl.
  - left. exists []. by repeat split.
  - destruct (JSString.includes (JSString.toLowerCase h) target) eqn:E.
    + right; left. exists [], h, hs. rewrite or_string. repeat split; [by constructor|].
      by apply includes_contains.
    + apply not_includes_names in E.
      destruct IH as [(l & -> & Hl & ->) | [(pre & k & post & -> & Hp & Hk & ->)
                                          | (pre & post & -> & Hp & ->)]].
      * left. exists (h :: l). repeat split; [by constructor].
      * right; left. exists (h :: pre), k, post. repeat split; try done. by constructor.
      * right; right. exists (h :: pre), post. repeat split; try done. by constructor.
  - right; right. exists [], hs. by repeat split.
Qed.

Lemma header_row_dense (l : list value) :
  header_row (dense l)
  = dense (List.map (λ h, JSString.trim (ToString (or h (VString "")))) l).
Proof. unfold header_row, array_map, dense. by rewrite !List.map_map. Qed.

(** The data derived from a sheet whose first row has no hole (lines
    21-83) are computed without an exception: the three keys are the first
    headers naming the facets or the empty label, the filtered rows are
    rows of the sheet in their order, and without a sort column the sorted
    rows are the filtered rows.  The markup of the rows may still raise,
    as the statements on the cells below say. *)
Theorem derived_data_of_a_sheet_without_header_holes
    (first : list value) (rest : list (array value)) (st : State) :
  let st' := loadExcelFile (dense first :: rest) st in
  let hs := List.map (λ h, JSString.trim (ToString (or h (VString "")))) first in
  ∃ v, render st' = Ok v
       ∧ headers st' = dense hs
       ∧ resolves "role" hs (roleKey v)
       ∧ resolves "team" hs (teamKey v)
       ∧ resolves "region" hs (regionKey v)
       ∧ filtered v `sublist_of` allData st'
       ∧ (sortCol st < 0 → sortedData v = filtered v).
Proof.
  intros st' hs.
  assert (Hh : headers st' = dense hs) by apply header_row_dense.
  destruct (facetKey_dense "role" hs) as (rk & Hrk & ?).
  destruct (facetKey_dense "team" hs) as (tk & Htk & ?).
  destruct (facetKey_dense "region" hs) as (gk & Hgk & ?).
  eexists. unfold render. rewrite Hh, Hrk, Htk, Hgk. split; [reflexivity|].
  cbn [roleKey teamKey regionKey filtered sortedData]. repeat split; try done.
  - unfold filteredData. clear.
    induction (allData st') as [|r l IH]; simpl; [done|].
    destruct (keep_row _ _ _ _ r); by constructor.
  - intros Hcol. apply sortedRows_without_a_column. by left.
Qed.

(** ** Options and selections *)

(** The options of a facet are the truthy values of the column under the
    key of the facet: every option is such a value, every such value is
    among the options, no option occurs twice, and the options are in
    ascending order of their texts. *)
Theorem facetOptions_are_the_truthy_values_once_and_in_order (d : Dataset) (c : facet) :
  ∃ k opts,
    resolves (target c) (ds_headers d) k
    ∧ facetOptions d c = Ok opts
    ∧ (∀ v, v ∈ opts → ToBoolean v = true ∧ ∃ r, r ∈ ds_rows d ∧ Get r k = v)
    ∧ (∀ r, r ∈ ds_rows d → ToBoolean (Get r k) = true →
         ∃ w, w ∈ opts ∧ same_value_zero (Get r k) w = true)
    ∧ (∃ u, opts ≡ₚ u ∧ ForallOrdPairs (λ a b, same_value_zero b a = false) u)
    ∧ StronglySorted text_le opts.
Proof.
  destruct (facetOptions_resolved d c) as (k & Hk & E). exists k, (facetValues k (ds_rows d)).
  destruct (facetValues_spec k (ds_rows d)) as (Hin & Hcov & Hdis & Hsort).
  repeat split; try done.
  - by apply Hin.
  - apply Hin in H as [_ H]. apply list_elem_of_In, in_map_iff in H as (r & Hr & Hrow).
    exists r. split; [by apply list_elem_of_In | done].
  - intros r Hr Ht. apply Hcov; [|done].
    apply list_elem_of_In, in_map_iff. exists r. split; [done | by apply list_elem_of_In].
Qed.

(** A text offered as an option of a facet is not empty, and selecting it
    alone leaves a row at least. *)
Theorem a_text_option_selects_a_row (d : Dataset) (c : facet) (s : string) (opts : list value) :
  facetOptions d c = Ok opts → VString s ∈ opts →
  s ≠ ""
  ∧ ∃ out r, Spec.filter d (select c s no_filter) = Ok out ∧ r ∈ out.
Proof.
  intros Hopts Hs.
  destruct (render_dense d no_filter unsorted) as (rk & tk & gk & Hr & Ht & Hg & E).
  destruct (render_dense d (select c s no_filter) unsorted)
    as (rk' & tk' & gk' & Hr' & Ht' & Hg' & E').
  assert (rk' = rk) as -> by by eapply resolves_unique.
  assert (tk' = tk) as -> by by eapply resolves_unique.
  assert (gk' = gk) as -> by by eapply resolves_unique.
  unfold facetOptions in Hopts. rewrite E in Hopts. injection Hopts as <-.
  assert (Hk : ∃ k, VString s ∈ facetValues k (ds_rows d)
               ∧ ∀ r, matchFacet s k r = true →
                      keep_row (state_of d (select c s no_filter) unsorted) rk tk gk r = true).
  { destruct c; [exists rk | exists tk | exists gk]; (split; [exact Hs|]);
      intros r Hm; unfold keep_row; cbn; rewrite Hm; done. }
  destruct Hk as (k & Hin & Hkeep).
  destruct (facetValues_spec k (ds_rows d)) as (Hsub & _).
  destruct (Hsub _ Hin) as [Htruthy Hcol].
  split. { intros ->. discriminate Htruthy. }
  apply list_elem_of_In, in_map_iff in Hcol as (r & Hget & Hr0).
  unfold Spec.filter. rewrite E'. eexists _, r. split; [reflexivity|].
  cbn [filtered]. unfold filteredData. apply list_elem_of_In, filter_In.
  split; [exact Hr0|]. apply Hkeep. unfold matchFacet.
  rewrite Hget. simpl. rewrite String.eqb_refl. apply orb_true_r.
Qed.

(** ** Narrowing *)

Lemma filter_sublist_impl {A} (f g : A → bool) (l : list A) :
  (∀ x, f x = true → g x = true) → List.filter f l `sublist_of` List.filter g l.
Proof.
  intros H. induction l as [|x l IH]; simpl; [done|].
  destruct (f x) eqn:E.
  - rewrite (H x E). by constructor.
  - destruct (g x); [by constructor | done].
Qed.

Lemma append_assoc (a b c : string) : (a +:+ b) +:+ c = a +:+ (b +:+ c).
Proof. induction a as [|x a IH]; [done|]. by rewrite !append_cons, IH. Qed.

Lemma contains_trans (s q q' : string) : contains q q' → contains s q → contains s q'.
Proof.
  intros (a & b & ->) (pre & post & ->).
  exists (pre +:+ a), (b +:+ post). by rewrite !append_assoc.
Qed.

Lemma matchSearch_wider (q q' : string) (r : obj) :
  contains (JSString.toLowerCase q) (JSString.toLowerCase q') →
  matchSearch q r = true → matchSearch q' r = true.
Proof.
  intros Hc. rewrite !matchSearch_spec. unfold text_match.
  intros [-> | (k & v & Hk & Hv)].
  - left. destruct Hc as (a & b & E). destruct a; [|done]. by destruct q'.
  - right. exists k, v. split; [done|]. unfold contains_ci in *.
    by eapply contains_trans.
Qed.

(** Filtering only narrows.  A selection on a facet keeps rows of the
    result without it; a query keeps rows of the result of every query
    whose lower-case text occurs in its own; and every result is made of
    rows of the dataset, in their order. *)
Theorem a_longer_query_or_a_selection_narrows
    (d : Dataset) (f : FilterState) (c : facet) (q q' sel : string) :
  contains (JSString.toLowerCase q) (JSString.toLowerCase q') →
  ∃ narrow wide wider,
    Spec.filter d (select c sel (with_query q f)) = Ok narrow
    ∧ Spec.filter d (select c "" (with_query q f)) = Ok wide
    ∧ Spec.filter d (select c "" (with_query q' f)) = Ok wider
    ∧ narrow `sublist_of` wide ∧ wide `sublist_of` wider
    ∧ wider `sublist_of` ds_rows d.
Proof.
  intros Hc.
  destruct (render_dense d (select c sel (with_query q f)) unsorted)
    as (rk & tk & gk & Hr & Ht & Hg & E1).
  destruct (render_dense d (select c "" (with_query q f)) unsorted)
    as (rk2 & tk2 & gk2 & Hr2 & Ht2 & Hg2 & E2).
  destruct (render_dense d (select c "" (with_query q' f)) unsorted)
    as (rk3 & tk3 & gk3 & Hr3 & Ht3 & Hg3 & E3).
  assert (rk2 = rk) as -> by by eapply resolves_unique.
  assert (tk2 = tk) as -> by by eapply resolves_unique.
  assert (gk2 = gk) as -> by by eapply resolves_unique.
  assert (rk3 = rk) as -> by by eapply resolves_unique.
  assert (tk3 = tk) as -> by by eapply resolves_unique.
  assert (gk3 = gk) as -> by by eapply resolves_unique.
  unfold Spec.filter. rewrite E1, E2, E3. eexists _, _, _.
  repeat split; try reflexivity; cbn [filtered]; unfold filteredData;
    cbn [allData state_of].
  - apply filter_sublist_impl. intros r. unfold keep_row.
    destruct c; cbn; rewrite !andb_true_iff; tauto.
  - apply filter_sublist_impl. intros r. unfold keep_row.
    destruct c; cbn; rewrite !andb_true_iff;
      intros; destruct_and!; repeat split; try done;
      by eapply matchSearch_wider.
  - clear. induction (ds_rows d) as [|r l IH]; simpl; [done|].
    destruct (keep_row _ _ _ _ r); by constructor.
Qed.

(** ** Case *)

Lemma lowerChar_idem (c : ascii) : JSString.lowerChar (JSString.lowerChar c) = JSString.lowerChar c.
Proof. destruct c as [[] [] [] [] [] [] [] []]; reflexivity. Qed.

Lemma toLowerCase_idem (s : string) :
  JSString.toLowerCase (JSString.toLowerCase s) = JSString.toLowerCase s.
Proof. induction s as [|c s IH]; simpl; [done|]. by rewrite lowerChar_idem, IH. Qed.

Lemma matchSearch_case (q q' : string) (r : obj) :
  JSString.toLowerCase q = JSString.toLowerCase q' → matchSearch q r = matchSearch q' r.
Proof.
  intros E. unfold matchSearch. rewrite E. f_equal. f_equal. simpl.
  destruct q, q'; try done.
Qed.

(** The search does not depend on the case of the query: two queries
    that are equal up to case filter alike. *)
Theorem search_ignores_the_case_of_the_query (d : Dataset) (f : FilterState) (q q' : string) :
  JSString.toLowerCase q = JSString.toLowerCase q' →
  Spec.filter d (with_query q f) = Spec.filter d (with_query q' f).
Proof.
  intros E.
  destruct (render_dense d (with_query q f) unsorted) as (rk & tk & gk & Hr & Ht & Hg & E1).
  destruct (render_dense d (with_query q' f) unsorted)
    as (rk2 & tk2 & gk2 & Hr2 & Ht2 & Hg2 & E2).
  assert (rk2 = rk) as -> by by eapply resolves_unique.
  assert (tk2 = tk) as -> by by eapply resolves_unique.
  assert (gk2 = gk) as -> by by eapply resolves_unique.
  unfold Spec.filter. rewrite E1, E2. simpl. unfold mret, result_ret. f_equal.
  unfold filteredData. cbn [allData state_of]. apply List.filter_ext. intros r. unfold keep_row. cbn.
  by rewrite (matchSearch_case _ _ r E).
Qed.

(** ** The class of a role *)

Lemma keep_lower_letters_letters (s : string) :
  keep_lower_letters (keep_lower_letters s) = keep_lower_letters s.
Proof.
  induction s as [|c s IH]; simpl; [done|].
  destruct (JSString.in_range 97 122 c) eqn:E; simpl; by rewrite ?E, IH.
Qed.

Lemma lowerChar_letter (c : ascii) :
  JSString.in_range 97 122 c = true → JSString.lowerChar c = c.
Proof. destruct c as [[] [] [] [] [] [] [] []]; done. Qed.

Lemma toLowerCase_letters (s : string) :
  JSString.toLowerCase (keep_lower_letters s) = keep_lower_letters s.
Proof.
  induction s as [|c s IH]; simpl; [done|].
  destruct (JSString.in_range 97 122 c) eqn:E; simpl; [|done].
  by rewrite lowerChar_letter, IH.
Qed.

(** The class of a role text is "role-" followed by lower-case letters
    only; it does not depend on the case of the role, nor on its
    characters other than letters.  On a value that is not a text the
    function raises a [TypeError]. *)
Theorem getRoleClass_is_a_class_of_letters (role : value) :
  (∀ s, role = VString s →
     ∃ letters, getRoleClass role = Ok ("role-" +:+ letters)
                ∧ keep_lower_letters letters = letters
                ∧ getRoleClass (VString (JSString.toLowerCase s)) = getRoleClass role
                ∧ getRoleClass (VString letters) = getRoleClass role)
  ∧ ((∀ s, role ≠ VString s) → getRoleClass role = Throw TypeError).
Proof.
  split.
  - intros s ->. exists (keep_lower_letters (JSString.toLowerCase s)).
    split; [done|]. split; [apply keep_lower_letters_letters|]. split.
    + simpl. by rewrite toLowerCase_idem.
    + simpl. by rewrite toLowerCase_letters, keep_lower_letters_letters.
  - intros H. destruct role; try done. by destruct (H s).
Qed.

(** ** Cells *)

Lemma or_empty_truthy (v : value) :
  ToBoolean (or v (VString "")) = ToBoolean v.
Proof. unfold or. by destruct (ToBoolean v) eqn:E. Qed.

(** The cell of the role column.  A role that is a non-empty text is
    shown as a badge of the class "role-badge role-" followed by its
    lower-case letters; a truthy role that is not a text (a number, say)
    raises a [TypeError]; a falsy role is shown as the empty text. *)
Theorem renderCell_of_the_role_column (LocalTZA : Z → Z) (rk : string) (row : obj) :
  (∀ s, s ≠ "" → Get row rk = VString s →
     renderCell LocalTZA rk row rk
     = Ok (Badge ("role-badge role-" +:+ keep_lower_letters (JSString.toLowerCase s))
                 (VString s)))
  ∧ (ToBoolean (Get row rk) = true → (∀ s, Get row rk ≠ VString s) →
     renderCell LocalTZA rk row rk = Throw TypeError)
  ∧ (ToBoolean (Get row rk) = false → rk ≠ "Birthday" →
     renderCell LocalTZA rk row rk = Ok (Content (VString ""))).
Proof.
  unfold renderCell. rewrite String.eqb_refl, or_empty_truthy. cbn [andb].
  split; [|split].
  - intros s Hs E. rewrite E. simpl. destruct (String.eqb_spec s ""); [done|]. simpl.
    unfold or. simpl. by destruct (String.eqb_spec s "").
  - intros Ht Hn. rewrite Ht, (or_truthy _ _ Ht).
    destruct (Get row rk) eqn:E; try done. by destruct (Hn s).
  - intros Hf Hb. rewrite Hf, (or_falsy _ _ Hf).
    by rewrite (proj2 (String.eqb_neq _ _) Hb).
Qed.

(** The cells of the other columns.  Outside the column "Birthday" a
    cell shows its value, or the empty text for a falsy one; under
    "Birthday" a falsy value is shown as the empty text, and a truthy
    value that does not parse as a number raises a [RangeError]. *)
Theorem renderCell_of_other_columns (LocalTZA : Z → Z) (rk : string) (row : obj) (header : string) :
  header ≠ rk →
  (header ≠ "Birthday" →
   renderCell LocalTZA rk row header = Ok (Content (or (Get row header) (VString ""))))
  ∧ (header = "Birthday" → ToBoolean (Get row header) = false →
     renderCell LocalTZA rk row header = Ok (Content (VString "")))
  ∧ (header = "Birthday" → ToBoolean (Get row header) = true →
     isNaN (Get row header) = true →
     renderCell LocalTZA rk row header = Throw RangeError).
Proof.
  intros Hne. unfold renderCell.
  rewrite (proj2 (String.eqb_neq _ _) Hne). cbn [andb]. split; [|split].
  - intros Hb. by rewrite (proj2 (String.eqb_neq _ _) Hb).
  - intros -> Hf. simpl String.eqb. rewrite (or_falsy _ _ Hf). done.
  - intros -> Ht Hn. simpl String.eqb. rewrite (or_truthy _ _ Ht).
    unfold parseGoogleSheetsDate. rewrite Ht. cbn [negb].
    apply isNaN_NaN in Hn. unfold isNaN in Hn. rewrite Hn. cbn [JSNumber.mul].
    by rewrite add_NaN.
Qed.

(** ** The table body *)

Lemma renderCells_length (LocalTZA : Z → Z) (rk : string) (row : obj) (hs : array string)
    (cs : array cell) :
  renderCells LocalTZA rk row hs = Ok cs → length cs = length hs.
Proof.
  revert cs. induction hs as [|[h|] hs IH]; intros cs; cbn [renderCells].
  - by intros [= <-].
  - destruct (renderCell LocalTZA rk row h) as [c|e]; [|done]. simpl.
    destruct (renderCells LocalTZA rk row hs) as [cs'|e]; [|done]. simpl.
    intros [= <-]. simpl. by rewrite (IH cs').
  - destruct (renderCells LocalTZA rk row hs) as [cs'|e]; [|done]. simpl.
    intros [= <-]. simpl. by rewrite (IH cs').
Qed.

Lemma renderRows_length (LocalTZA : Z → Z) (rk : string) (hs : array string)
    (rows : list obj) (rs : list (array cell)) :
  renderRows LocalTZA rk hs rows = Ok rs →
  length rs = length rows ∧ Forall (λ cs, length cs = length hs) rs.
Proof.
  revert rs. induction rows as [|row rows IH]; intros rs; cbn [renderRows].
  - intros [= <-]. by split.
  - destruct (renderCells LocalTZA rk row hs) as [cs|e] eqn:E; [|done]. simpl.
    destruct (renderRows LocalTZA rk hs rows) as [rs'|e]; [|done]. simpl.
    intros [= <-]. destruct (IH rs' eq_refl) as [Hl Hf]. split; [simpl; lia|].
    constructor; [|done]. by apply renderCells_length in E.
Qed.

Lemma renderCells_throws (LocalTZA : Z → Z) (rk : string) (row : obj) (hs : array string)
    (h : string) (e : exn) :
  Some h ∈ hs → renderCell LocalTZA rk row h = Throw e →
  ∃ e', renderCells LocalTZA rk row hs = Throw e'.
Proof.
  intros Hin Hc. induction hs as [|[h'|] hs IH]; cbn [renderCells].
  - by apply elem_of_nil in Hin.
  - apply elem_of_cons in Hin as [[= <-]|Hin].
    + rewrite Hc. by eexists.
    + destruct (renderCell LocalTZA rk row h'); [|by eexists]. simpl.
      destruct (IH Hin) as [e' ->]. by eexists.
  - apply elem_of_cons in Hin as [?|Hin]; [done|].
    destruct (IH Hin) as [e' ->]. by eexists.
Qed.

Lemma renderRows_throws (LocalTZA : Z → Z) (rk : string) (hs : array string)
    (rows : list obj) (row : obj) (e : exn) :
  row ∈ rows → renderCells LocalTZA rk row hs = Throw e →
  ∃ e', renderRows LocalTZA rk hs rows = Throw e'.
Proof.
  intros Hin Hc. induction rows as [|r rows IH]; cbn [renderRows].
  - by apply elem_of_nil in Hin.
  - apply elem_of_cons in Hin as [<-|Hin].
    + rewrite Hc. by eexists.
    + destruct (renderCells LocalTZA rk r hs); [|by eexists]. simpl.
      destruct (IH Hin) as [e' ->]. by eexists.
Qed.

Lemma renderCells_all (LocalTZA : Z → Z) (rk : string) (row : obj) (hs : array string) :
  (∀ h, Some h ∈ hs → ∃ c, renderCell LocalTZA rk row h = Ok c) →
  ∃ cs, renderCells LocalTZA rk row hs = Ok cs.
Proof.
  intros H. induction hs as [|[h|] hs IH]; cbn [renderCells]; [by eexists|..].
  - destruct (H h) as [c ->]; [by left|]. simpl.
    destruct IH as [cs ->]; [intros; apply H; by right|]. by eexists.
  - destruct IH as [cs ->]; [intros; apply H; by right|]. by eexists.
Qed.

Lemma renderRows_all (LocalTZA : Z → Z) (rk : string) (hs : array string) (rows : list obj) :
  (∀ row h, row ∈ rows → Some h ∈ hs → ∃ c, renderCell LocalTZA rk row h = Ok c) →
  ∃ rs, renderRows LocalTZA rk hs rows = Ok rs.
Proof.
  intros H. induction rows as [|r rows IH]; cbn [renderRows]; [by eexists|].
  destruct (renderCells_all LocalTZA rk r hs) as [cs ->].
  { intros h Hh. apply H; [by left | done]. }
  simpl. destruct IH as [rs ->]; [intros; apply H; [by right | done]|]. by eexists.
Qed.

(** The table body.  Without sorted rows it is the one row "No matching
    records found" spanning the columns, and only then; otherwise it has a
    row for each sorted row, each with a cell for each header.  A single
    cell that raises makes the whole body raise, and a body whose cells
    all render is rendered. *)
Theorem tableBody_has_a_row_for_each_sorted_row
    (LocalTZA : Z → Z) (hs : array string) (v : View) :
  (sortedData v = [] → tableBody LocalTZA hs v = Ok (NoData (length hs)))
  ∧ (∀ n, tableBody LocalTZA hs v = Ok (NoData n) → sortedData v = [] ∧ n = length hs)
  ∧ (∀ rs, tableBody LocalTZA hs v = Ok (Rows rs) →
       rs ≠ [] ∧ length rs = length (sortedData v)
       ∧ Forall (λ cs, length cs = length hs) rs)
  ∧ (∀ row h e, row ∈ sortedData v → Some h ∈ hs →
       renderCell LocalTZA (roleKey v) row h = Throw e →
       ∃ e', tableBody LocalTZA hs v = Throw e')
  ∧ ((∀ row h, row ∈ sortedData v → Some h ∈ hs →
        ∃ c, renderCell LocalTZA (roleKey v) row h = Ok c) →
     ∃ body, tableBody LocalTZA hs v = Ok body).
Proof.
  unfold tableBody. destruct (sortedData v) as [|r rows] eqn:E.
  - split; [done|]. split; [by intros n [= <-]|]. split; [done|].
    split; [intros ??? H; by apply elem_of_nil in H | by eexists].
  - split; [done|].
    destruct (renderRows LocalTZA (roleKey v) hs (r :: rows)) as [rs|e'] eqn:R; simpl.
    + split; [done|]. split.
      * intros ? [= <-]. apply renderRows_length in R as [Hl Hf].
        split; [by destruct rs|done].
      * split; [|by eexists]. intros row h e Hrow Hh Hc.
        destruct (renderCells_throws LocalTZA (roleKey v) row hs h e Hh Hc) as [e1 H1].
        destruct (renderRows_throws LocalTZA (roleKey v) hs (r :: rows) row e1 Hrow H1).
        congruence.
    + split; [done|]. split; [done|]. split; [by eexists|].
      intros H. destruct (renderRows_all LocalTZA (roleKey v) hs (r :: rows) H). congruence.
Qed.

(** ** The page *)

(** What the component shows.  Before the retrieval has ended: the
    loading notice.  After a response that is not ok: the error notice
    with the message "Could not load file: /data/players.xlsx".  After an
    exception: the error notice with the message of the exception, unless
    that message is empty, in which case the page is shown with an empty
    table.  After a decoded sheet: the page, never a notice, with the
    number of rows kept, which is at most the number of data rows; an
    empty sheet gives the empty table.  Loading always ends, and a failed
    retrieval leaves the rows and the headers as they were. *)
Theorem App_after_the_retrieval (LocalTZA : Z → Z) :
  App LocalTZA initial = Ok LoadingPage
  ∧ App LocalTZA (loadExcelFile_outcome NotOk initial)
    = Ok (ErrorPage "Could not load file: /data/players.xlsx")
  ∧ (∀ message, message ≠ "" →
       App LocalTZA (loadExcelFile_outcome (Raised message) initial)
       = Ok (ErrorPage message))
  ∧ App LocalTZA (loadExcelFile_outcome (Raised "") initial)
    = Ok (TablePage 0 0 (NoData 0))
  ∧ App LocalTZA (loadExcelFile_outcome (Decoded []) initial)
    = Ok (TablePage 0 0 (NoData 0))
  ∧ (∀ json p, App LocalTZA (loadExcelFile_outcome (Decoded json) initial) = Ok p →
       ∃ teamCount body,
         p = TablePage (length (allData (loadExcelFile json initial))) teamCount body
         ∧ (length (allData (loadExcelFile json initial)) <= length json - 1)%nat)
  ∧ (∀ r st, loading (loadExcelFile_outcome r st) = false)
  ∧ (∀ r st, (∀ json, r ≠ Decoded json) →
       allData (loadExcelFile_outcome r st) = allData st
       ∧ headers (loadExcelFile_outcome r st) = headers st
       ∧ ∃ message, error (loadExcelFile_outcome r st) = Some message).
Proof.
  split; [done|]. split; [done|]. split.
  { intros m Hm. unfold App. cbn.
    by rewrite (proj2 (String.eqb_neq m "") Hm). }
  split; [done|]. split; [done|]. split.
  { intros json p. unfold App. cbn [loadExcelFile_outcome].
    destruct (render (loadExcelFile json initial)) as [v|e]; [|done]. simpl.
    replace (loading (loadExcelFile json initial)) with false by by destruct json.
    replace (shown_error (loadExcelFile json initial)) with (@None string) by by destruct json.
    destruct (tableBody _ _ _) as [body|e]; [|done]. simpl. intros [= <-].
    eexists _, _. split; [done|]. destruct json as [|first rest]; [simpl; lia|].
    cbn [loadExcelFile allData setLoading set_sheet length].
    pose proof (List.filter_length_le has_content (List.map (make_row (header_row first)) rest)) as Hle.
    rewrite List.length_map in Hle. lia. }
  split; [by intros [] ?; try destruct json|].
  intros r st Hr. destruct r; [..|by destruct (Hr json)]; cbn; by eauto.
Qed.

(** ** The first page of a sheet *)

Lemma parseGoogleSheetsDate_reads_the_number (LocalTZA : Z → Z) (v w : value) :
  ToBoolean v = ToBoolean w → ToNumber v = ToNumber w →
  parseGoogleSheetsDate LocalTZA v = parseGoogleSheetsDate LocalTZA w.
Proof. intros Hb Hn. unfold parseGoogleSheetsDate. by rewrite Hb, Hn. Qed.

Lemma filter_all {A} (f : A → bool) (l : list A) :
  (∀ x, f x = true) → List.filter f l = l.
Proof. intros H. induction l as [|x l IH]; simpl; [done|]. by rewrite H, IH. Qed.

(** The page after a sheet has been loaded.  Let the first row of the
    sheet have no hole, let every truthy cell of the role column be a
    text, and every truthy cell under "Birthday" be read as a whole serial
    from 1 to 100000000; let local time have been within a day of UTC at
    the epoch.  Then the component shows the page, with the count of the
    rows kept and the table: the row "No matching records found" when no
    row was kept, and else a row of cells for each row kept, in the order
    of the sheet. *)
Theorem a_loaded_sheet_shows_its_table
    (LocalTZA : Z → Z) (first : list value) (rest : list (array value)) :
  let st := loadExcelFile_outcome (Decoded (dense first :: rest)) initial in
  let offset := LocalTZA (MakeDate (MakeDay 1899 11 30) 0) in
  Z.abs offset <= msPerDay →
  (∀ r rk, r ∈ allData st → facetKey "role" (headers st) = Ok rk →
           ToBoolean (Get r rk) = true → ∃ s, Get r rk = VString s) →
  (∀ r, r ∈ allData st → ToBoolean (Get r "Birthday") = true →
        ∃ n, 1 <= n <= 100000000 ∧ ToNumber (Get r "Birthday") = of_Z n) →
  ∃ teamCount body,
    App LocalTZA st = Ok (TablePage (length (allData st)) teamCount body)
    ∧ (allData st = [] → body = NoData (length first))
    ∧ (allData st ≠ [] →
       ∃ rs, body = Rows rs ∧ length rs = length (allData st)
             ∧ Forall (λ cs, length cs = length first) rs).
Proof.
  intros st offset Hoff Hrole Hbirth.
  set (hs := List.map (λ h, JSString.trim (ToString (or h (VString "")))) first).
  assert (Hh : headers st = dense hs) by apply header_row_dense.
  assert (Hlen : length (headers st) = length first).
  { rewrite Hh. unfold dense, hs. by rewrite !List.length_map. }
  destruct (facetKey_dense "role" hs) as (rk & Hrk & _).
  destruct (facetKey_dense "team" hs) as (tk & Htk & _).
  destruct (facetKey_dense "region" hs) as (gk & Hgk & _).
  assert (Hfd : filteredData st rk tk gk = allData st).
  { unfold filteredData. apply filter_all. intros r. reflexivity. }
  assert (Hsd : sortedRows (headers st) (sortCol st) (sortAsc st) (allData st) = allData st).
  { apply sortedRows_unsorted. reflexivity. }
  assert (Hcells : ∀ row h, row ∈ allData st → Some h ∈ headers st →
                     ∃ c, renderCell LocalTZA rk row h = Ok c).
  { intros row h Hrow _. unfold renderCell.
    destruct (String.eqb h rk && ToBoolean (or (Get row h) (VString ""))) eqn:E.
    - apply andb_true_iff in E as [E1 E2]. apply String.eqb_eq in E1. subst h.
      rewrite or_empty_truthy in E2.
      destruct (Hrole row rk Hrow) as [s Hs]; [by rewrite Hh | done|].
      rewrite (or_truthy _ _ E2), Hs. by eexists.
    - destruct (String.eqb h "Birthday") eqn:Eb; [|by eexists].
      apply String.eqb_eq in Eb. subst h.
      destruct (ToBoolean (Get row "Birthday")) eqn:Et.
      + destruct (Hbirth row Hrow Et) as (n & Hn & Hnum).
        rewrite (or_truthy _ _ Et).
        rewrite (parseGoogleSheetsDate_reads_the_number LocalTZA _ (VNumber (of_Z n))).
        * rewrite parseGoogleSheetsDate_day by (fold offset; lia). by eexists.
        * rewrite Et. simpl. symmetry. apply negb_true_iff, Z.eqb_neq. lia.
        * exact Hnum.
      + rewrite (or_falsy _ _ Et), parseGoogleSheetsDate_falsy by done. by eexists. }
  unfold App, render. rewrite Hh, Hrk, Htk, Hgk. rewrite <- Hh.
  cbn [mbind result_bind bind mret result_ret].
  change (loading st) with false. change (shown_error st) with (@None string).
  unfold tableBody. cbn [sortedData roleKey teams]. rewrite Hfd, Hsd.
  destruct (allData st) as [|r rows] eqn:Erows.
  - cbn. eexists _, _. split; [reflexivity|].
    split; [intros _; f_equal; exact Hlen | done].
  - destruct (renderRows_all LocalTZA rk (headers st) (r :: rows)) as [rs Hrs].
    { intros row h Hr Hhd. by apply Hcells. }
    rewrite Hrs. cbn. eexists _, _. split; [reflexivity|]. split; [done|].
    intros _. exists rs. split; [done|].
    apply renderRows_length in Hrs as [Hl Hf]. split; [done|].
    eapply Forall_impl; [exact Hf|]. intros cs Hcs. cbv beta in Hcs.
    rewrite Hcs. exact Hlen.
Qed.

(** ** Serials day by day, and serials in text *)

Lemma TimeClip_scaled (t : Z) (k : N) :
  Z.abs t <= 8640000000000000 → TimeClip (Fin (t * pow10 k) k) = Some t.
Proof.
  intros H. assert (P : 0 < pow10 k) by (unfold pow10; apply Z.pow_pos_nonneg; lia).
  unfold TimeClip, of_Z, JSNumber.ltb, JSNumber.compare, truncate.
  replace (pow10 0) with 1 by done. rewrite Z.mul_1_r, Z.quot_mul by lia.
  destruct (Z.compare_spec (8640000000000000 * pow10 k) (Z.abs (t * pow10 k))); try done.
  rewrite Z.abs_mul, (Z.abs_eq (pow10 k)) in * by lia. nia.
Qed.

(** Consecutive whole serials are rendered as consecutive days of the
    calendar, in every environment whose local time was within a day of
    UTC at the epoch. *)
Theorem parseGoogleSheetsDate_of_the_next_serial (LocalTZA : Z → Z) (n : Z) :
  let offset := LocalTZA (MakeDate (MakeDay 1899 11 30) 0) in
  Z.abs offset <= msPerDay → 1 <= n < 100000000 →
  ∃ d, parseGoogleSheetsDate LocalTZA (VNumber (of_Z n)) = Ok (render_date d)
       ∧ parseGoogleSheetsDate LocalTZA (VNumber (of_Z (n + 1))) = Ok (render_date (next_day d)).
Proof.
  intros offset Hoff Hn.
  exists (date_of_day ((MakeDate (MakeDay 1899 11 30 + n) 0 - offset) / msPerDay)).
  rewrite !parseGoogleSheetsDate_day by (fold offset; lia). fold offset.
  rewrite !iso_date_of_day_render, <- date_of_day_succ. split; [done|].
  do 3 f_equal. unfold MakeDate, msPerDay.
  rewrite <- Z.div_add by lia. f_equal. lia.
Qed.

(** Serials in text.  A text that parses to a number other than zero is
    rendered as that number is.  A non-empty text that parses to zero,
    such as "0" or a blank, is rendered as the day of the epoch in UTC
    (the day before, east of UTC), whereas the number zero is rendered as
    the empty text. *)
Theorem parseGoogleSheetsDate_of_a_text (LocalTZA : Z → Z) (s : string) :
  let offset := LocalTZA (MakeDate (MakeDay 1899 11 30) 0) in
  s ≠ "" →
  (ToBoolean (VNumber (JSNumber.ofString s)) = true →
   parseGoogleSheetsDate LocalTZA (VString s)
   = parseGoogleSheetsDate LocalTZA (VNumber (JSNumber.ofString s)))
  ∧ (JSNumber.isZero (JSNumber.ofString s) = true →
     parseGoogleSheetsDate LocalTZA (VNumber (JSNumber.ofString s)) = Ok ""
     ∧ (- msPerDay < offset <= 0 →
        parseGoogleSheetsDate LocalTZA (VString s) = Ok "1899-12-30")
     ∧ (0 < offset <= msPerDay →
        parseGoogleSheetsDate LocalTZA (VString s) = Ok "1899-12-29")).
Proof.
  intros offset Hs.
  assert (Ht : ToBoolean (VString s) = true).
  { simpl. by rewrite (proj2 (String.eqb_neq s "") Hs). }
  split.
  - intros Hn. unfold parseGoogleSheetsDate. by rewrite Ht, Hn.
  - intros Hz. split.
    { apply parseGoogleSheetsDate_falsy. simpl. rewrite Hz. by rewrite orb_true_r. }
    assert (E : - msPerDay < offset <= msPerDay →
                parseGoogleSheetsDate LocalTZA (VString s)
                = Ok (iso_date_of_day ((-2209161600000 - offset) / msPerDay))).
    { intros Hoff. unfold parseGoogleSheetsDate. rewrite Ht. cbn [negb].
      rewrite epoch_time. fold offset. unfold msPerDay in *.
      rewrite TimeClip_of_Z by lia. cbn [getTime ToNumber].
      destruct (JSNumber.ofString s) as [| |m k]; try done.
      simpl in Hz. apply Z.eqb_eq in Hz as ->.
      unfold of_Z. cbn [JSNumber.mul JSNumber.add]. unfold Date_of_number.
      replace (pow10 0) with 1 by done.
      rewrite Z.mul_0_l, Z.add_0_r, N.add_0_l.
      rewrite TimeClip_scaled by lia.
      rewrite iso_date_of_time. done. }
    split; intros Hoff; (rewrite E by lia); f_equal; unfold msPerDay in *.
    + replace ((-2209161600000 - offset) / 86400000) with (-25569); [by vm_compute|].
      apply Z.div_unique with (- offset); lia.
    + replace ((-2209161600000 - offset) / 86400000) with (-25570); [by vm_compute|].
      apply Z.div_unique with (86400000 - offset); lia.
Qed.

(** ** The scenario of the specification *)

(** The sheet of Alice and Bob keeps both rows; the query "alice" returns
    the row of Alice; and her birthday 44927 is rendered "2023-01-01" in
    UTC. *)
Example alice_and_bob :
  let st := loadExcelFile
              [dense [VString "Name"; VString "Role"; VString "Birthday"];
               dense [VString "Alice"; VString "Support"; VString "44927"];
               dense [VString "Bob"; VString ""; VString ""]] initial in
  let alice : obj := {[ "Name" := VString "Alice"; "Role" := VString "Support";
                        "Birthday" := VString "44927" ]} in
  let bob : obj := {[ "Name" := VString "Bob"; "Role" := VString "";
                      "Birthday" := VString "" ]} in
  headers st = dense ["Name"; "Role"; "Birthday"]
  ∧ allData st = [alice; bob]
  ∧ Spec.filter {| ds_headers := ["Name"; "Role"; "Birthday"]; ds_rows := allData st |}
                {| query := "alice"; role_sel := ""; team_sel := ""; region_sel := "" |}
    = Ok [alice]
  ∧ parseGoogleSheetsDate (λ _, 0) (Get alice "Birthday") = Ok "2023-01-01".
Proof. by vm_compute. Qed.

(** ** Instances *)

(** C5, witness: serial 1, one hour east of UTC. *)
Lemma parseGoogleSheetsDate_depends_on_timezone_witness :
  1 <= 1 <= 100000000
  ∧ parseGoogleSheetsDate (λ _, 3600000) (VNumber (of_Z 1)) = Ok (decodeDate 0).
Proof.
  assert (Hn : 1 <= 1 <= 100000000) by lia.
  split; [exact Hn|].
  apply (proj1 (parseGoogleSheetsDate_depends_on_timezone (λ _, 3600000) 1 Hn)).
  unfold msPerDay. lia.
Defined.

(** C6, witness: the text "abc". *)
Lemma parseGoogleSheetsDate_throws_on_unparseable_witness :
  parseGoogleSheetsDate (λ _, 0) (VString "abc") = Throw RangeError.
Proof.
  apply (parseGoogleSheetsDate_throws_on_unparseable (λ _, 0) (VString "abc"));
    reflexivity.
Defined.


(** C10, witness: the number 0 under the header "Kills". *)
Lemma falsy_cells_are_ingested_as_absent_witness :
  let first := dense [VString "Name"; VString "Kills"; VString "Active"] in
  let row := dense [VString "Bob"; VNumber (of_Z 0); VBool false] in
  let rest := [dense [VString "Alice"; VNumber (of_Z 3); VBool true]; row] in
  header_row first !! 1%nat = Some (Some "Kills")
  ∧ (∀ j', (1 < j')%nat → header_row first !! j' ≠ Some (Some "Kills"))
  ∧ "Kills" ≠ "__proto__"
  ∧ ToBoolean (index row 1) = false
  ∧ make_row (header_row first) row !! "Kills" = Some (VString "").
Proof.
  intros first row rest.
  assert (H1 : header_row first !! 1%nat = Some (Some "Kills")) by reflexivity.
  assert (H2 : ∀ j', (1 < j')%nat → header_row first !! j' ≠ Some (Some "Kills")).
  { intros [|[|[|j']]] Hlt; [lia | lia | discriminate | discriminate]. }
  assert (H3 : "Kills" ≠ "__proto__") by discriminate.
  assert (H4 : ToBoolean (index row 1) = false) by reflexivity.
  split; [exact H1|]. split; [exact H2|]. split; [exact H3|]. split; [exact H4|].
  exact (proj1 (proj2 (falsy_cells_are_ingested_as_absent first rest initial))
           row 1%nat "Kills" H1 H2 H3 H4).
Defined.

(** A first click on a column sorts it ascending. *)
Lemma handleSort_selects_and_toggles_witness :
  sortCol initial ≠ 2 ∧ sortAsc (handleSort 2 initial) = true.
Proof.
  assert (H : sortCol initial ≠ 2) by discriminate.
  split; [exact H|].
  exact (proj1 (proj2 (handleSort_selects_and_toggles 2 initial)) H).
Defined.

(** After a click on column 2 the header of column 1 carries no class. *)
Lemma thClass_marks_the_clicked_header_witness :
  1 ≠ 2 ∧ thClass (handleSort 2 initial) 1 = "".
Proof.
  assert (H : 1 ≠ 2) by discriminate.
  split; [exact H|].
  exact (proj2 (thClass_marks_the_clicked_header 2 1 initial) H).
Defined.

(** With no column selected two rows stay as they are. *)
Lemma sortedRows_without_a_column_witness :
  let a : obj := {[ "Name" := VString "Bob" ]} in
  let b : obj := {[ "Name" := VString "Ann" ]} in
  -1 < 0 ∧ sortedRows (dense ["Name"]) (-1) true [a; b] = [a; b].
Proof.
  intros a b. assert (H : -1 < 0) by lia.
  split; [exact H|].
  apply (sortedRows_without_a_column (dense ["Name"]) (-1) true [a; b]).
  left. exact H.
Defined.

(** The scores "10" and "9" are whole numbers, and are sorted as such. *)
Lemma sortedRows_orders_a_column_of_whole_numbers_witness :
  let a : obj := {[ "Score" := VString "10" ]} in
  let b : obj := {[ "Score" := VString "9" ]} in
  let hs := dense ["Score"] in
  let whole := λ r : obj, match ToNumber (Get r "Score") with Fin m _ => m | _ => 0 end in
  0 <= 0
  ∧ Forall (λ r, denotes (Get r (sort_key hs 0)) (whole r)) [a; b]
  ∧ StronglySorted (λ a b, whole a <= whole b) (sortedRows hs 0 true [a; b]).
Proof.
  intros a b hs whole. assert (H : 0 <= 0) by lia.
  assert (Hr : Forall (λ r, denotes (Get r (sort_key hs 0)) (whole r)) [a; b]).
  { repeat (constructor; [split; [reflexivity | split; [reflexivity | vm_compute; discriminate]]|]).
    constructor. }
  split; [exact H|]. split; [exact Hr|].
  exact (proj1 (proj2 (sortedRows_orders_a_column_of_whole_numbers hs 0 [a; b] whole H Hr))).
Defined.

(** The names "Bob" and "Ann" are plain texts, and are sorted as such. *)
Lemma sortedRows_orders_a_column_of_texts_witness :
  let a : obj := {[ "Name" := VString "Bob" ]} in
  let b : obj := {[ "Name" := VString "Ann" ]} in
  let hs := dense ["Name"] in
  let text := λ r : obj, ToString (Get r "Name") in
  0 <= 0
  ∧ Forall (λ r, plain_text (Get r (sort_key hs 0)) (text r)) [a; b]
  ∧ StronglySorted (λ a b, String.leb (text a) (text b) = true) (sortedRows hs 0 true [a; b]).
Proof.
  intros a b hs text. assert (H : 0 <= 0) by lia.
  assert (Hr : Forall (λ r, plain_text (Get r (sort_key hs 0)) (text r)) [a; b]).
  { repeat (constructor; [split; reflexivity|]). constructor. }
  split; [exact H|]. split; [exact Hr|].
  exact (proj1 (proj2 (sortedRows_orders_a_column_of_texts hs 0 [a; b] text H Hr))).
Defined.

(** The comparator is consistent on the scores "10" and "9". *)
Lemma compareRows_is_consistent_on_a_column_of_one_kind_witness :
  let a : obj := {[ "Score" := VString "10" ]} in
  let b : obj := {[ "Score" := VString "9" ]} in
  let hs := dense ["Score"] in
  let whole := λ r : obj, match ToNumber (Get r "Score") with Fin m _ => m | _ => 0 end in
  0 <= 0
  ∧ Forall (λ r, denotes (Get r (sort_key hs 0)) (whole r)) [a; b]
  ∧ consistent (compareRows hs 0 true) [a; b].
Proof.
  intros a b hs whole. assert (H : 0 <= 0) by lia.
  assert (Hr : Forall (λ r, denotes (Get r (sort_key hs 0)) (whole r)) [a; b]).
  { repeat (constructor; [split; [reflexivity | split; [reflexivity | vm_compute; discriminate]]|]).
    constructor. }
  split; [exact H|]. split; [exact Hr|].
  apply (compareRows_is_consistent_on_a_column_of_one_kind hs 0 true [a; b] H).
  left. exists whole. exact Hr.
Defined.

(** Loaded from the initial state, a sheet is shown in the order of its
    rows. *)
Lemma derived_data_of_a_sheet_without_header_holes_witness :
  let st' := loadExcelFile (dense [VString "Name"] :: [dense [VString "Alice"]]) initial in
  sortCol initial < 0
  ∧ ∃ v, render st' = Ok v ∧ sortedData v = filtered v.
Proof.
  intros st'. assert (H : sortCol initial < 0) by (simpl; lia).
  split; [exact H|].
  destruct (derived_data_of_a_sheet_without_header_holes
              [VString "Name"] [dense [VString "Alice"]] initial)
    as (v & E & _ & _ & _ & _ & _ & Hs).
  exists v. split; [exact E | exact (Hs H)].
Defined.

(** The row of Alice has a truthy value. *)
Lemma ingested_rows_have_the_header_labels_witness :
  let first := dense [VString "Name"] in
  let rest := [dense [VString "Alice"]] in
  let r : obj := {[ "Name" := VString "Alice" ]} in
  r ∈ allData (loadExcelFile (first :: rest) initial)
  ∧ ∃ k v, r !! k = Some v ∧ ToBoolean v = true.
Proof.
  intros first rest r.
  assert (E : allData (loadExcelFile (first :: rest) initial) = [r]) by (vm_compute; reflexivity).
  assert (H : r ∈ allData (loadExcelFile (first :: rest) initial)).
  { rewrite E. apply list_elem_of_here. }
  split; [exact H|].
  exact (proj2 (proj2 (ingested_rows_have_the_header_labels first rest initial r H))).
Defined.

(** Two columns labelled "Name": the row holds the cell of the second. *)
Lemma make_row_reads_the_last_cell_of_a_label_witness :
  let hdrs := dense ["Name"; "Name"] in
  let row := dense [VString "a"; VString "b"] in
  hdrs !! 1%nat = Some (Some "Name")
  ∧ (∀ j', (1 < j')%nat → hdrs !! j' ≠ Some (Some "Name"))
  ∧ "Name" ≠ "__proto__"
  ∧ Get (make_row hdrs row) "Name" = or (index row 1) (VString "").
Proof.
  intros hdrs row.
  assert (H1 : hdrs !! 1%nat = Some (Some "Name")) by reflexivity.
  assert (H2 : ∀ j', (1 < j')%nat → hdrs !! j' ≠ Some (Some "Name")).
  { intros [|[|j']] Hlt; [lia | lia | discriminate]. }
  assert (H3 : "Name" ≠ "__proto__") by discriminate.
  split; [exact H1|]. split; [exact H2|]. split; [exact H3|].
  exact (proj1 (make_row_reads_the_last_cell_of_a_label hdrs row 1 "Name" H1 H2 H3)).
Defined.

(** The header " Name " is kept as "Name". *)
Lemma headers_are_trimmed_witness :
  Some "Name" ∈ headers (loadExcelFile [dense [VString " Name "]] initial)
  ∧ JSString.trim "Name" = "Name".
Proof.
  assert (H : Some "Name" ∈ headers (loadExcelFile [dense [VString " Name "]] initial)).
  { apply list_elem_of_In. left. vm_compute. reflexivity. }
  split; [exact H|].
  exact (proj1 (headers_are_trimmed (dense [VString " Name "]) [] initial "Name" H)).
Defined.

(** The role "Top" of Alice is an option, and selects her row. *)
Lemma a_text_option_selects_a_row_witness :
  let d := {| ds_headers := ["Name"; "Role"];
              ds_rows := [ {[ "Name" := VString "Alice"; "Role" := VString "Top" ]} ] |} in
  facetOptions d Role = Ok [VString "Top"]
  ∧ VString "Top" ∈ [VString "Top"]
  ∧ ∃ out r, Spec.filter d (select Role "Top" no_filter) = Ok out ∧ r ∈ out.
Proof.
  intros d.
  assert (H1 : facetOptions d Role = Ok [VString "Top"]) by (vm_compute; reflexivity).
  assert (H2 : VString "Top" ∈ [VString "Top"]) by (apply list_elem_of_In; left; reflexivity).
  split; [exact H1|]. split; [exact H2|].
  exact (proj2 (a_text_option_selects_a_row d Role "Top" [VString "Top"] H1 H2)).
Defined.

(** The query "ALI" keeps rows of the result of the query "al". *)
Lemma a_longer_query_or_a_selection_narrows_witness :
  let d := {| ds_headers := ["Name"; "Role"];
              ds_rows := [ {[ "Name" := VString "Alice"; "Role" := VString "Top" ]} ] |} in
  contains (JSString.toLowerCase "ALI") (JSString.toLowerCase "al")
  ∧ ∃ narrow wide wider,
      Spec.filter d (select Role "Top" (with_query "ALI" no_filter)) = Ok narrow
      ∧ Spec.filter d (select Role "" (with_query "ALI" no_filter)) = Ok wide
      ∧ Spec.filter d (select Role "" (with_query "al" no_filter)) = Ok wider
      ∧ narrow `sublist_of` wide ∧ wide `sublist_of` wider
      ∧ wider `sublist_of` ds_rows d.
Proof.
  intros d.
  assert (H : contains (JSString.toLowerCase "ALI") (JSString.toLowerCase "al"))
    by (exists "", "i"; reflexivity).
  split; [exact H|].
  exact (a_longer_query_or_a_selection_narrows d no_filter Role "ALI" "al" "Top" H).
Defined.

(** The queries "ALICE" and "alice" filter alike. *)
Lemma search_ignores_the_case_of_the_query_witness :
  let d := {| ds_headers := ["Name"];
              ds_rows := [ {[ "Name" := VString "Alice" ]} ] |} in
  JSString.toLowerCase "ALICE" = JSString.toLowerCase "alice"
  ∧ Spec.filter d (with_query "ALICE" no_filter) = Spec.filter d (with_query "alice" no_filter).
Proof.
  intros d.
  assert (H : JSString.toLowerCase "ALICE" = JSString.toLowerCase "alice") by reflexivity.
  split; [exact H|].
  exact (search_ignores_the_case_of_the_query d no_filter "ALICE" "alice" H).
Defined.

(** The class of the role "Mid Lane". *)
Lemma getRoleClass_is_a_class_of_letters_witness :
  VString "Mid Lane" = VString "Mid Lane"
  ∧ ∃ letters, getRoleClass (VString "Mid Lane") = Ok ("role-" +:+ letters)
               ∧ keep_lower_letters letters = letters
               ∧ getRoleClass (VString (JSString.toLowerCase "Mid Lane"))
                 = getRoleClass (VString "Mid Lane")
               ∧ getRoleClass (VString letters) = getRoleClass (VString "Mid Lane").
Proof.
  assert (H : VString "Mid Lane" = VString "Mid Lane") by reflexivity.
  split; [exact H|].
  exact (proj1 (getRoleClass_is_a_class_of_letters (VString "Mid Lane")) "Mid Lane" H).
Defined.

(** The options of the role facet of Alice and Bob, both "Top". *)
Lemma facetOptions_are_the_truthy_values_once_and_in_order_witness :
  let d := {| ds_headers := ["Name"; "Role"];
              ds_rows := [ {[ "Name" := VString "Alice"; "Role" := VString "Top" ]};
                           {[ "Name" := VString "Bob"; "Role" := VString "Top" ]} ] |} in
  ∃ opts, facetOptions d Role = Ok opts
          ∧ VString "Top" ∈ opts ∧ ToBoolean (VString "Top") = true.
Proof.
  intros d.
  destruct (facetOptions_are_the_truthy_values_once_and_in_order d Role)
    as (k & opts & _ & E & Hin & _).
  exists opts. split; [exact E|].
  assert (H : VString "Top" ∈ opts).
  { assert (E' : facetOptions d Role = Ok [VString "Top"]) by (vm_compute; reflexivity).
    rewrite E' in E. injection E as <-. apply list_elem_of_In. left. reflexivity. }
  split; [exact H|]. exact (proj1 (Hin _ H)).
Defined.

(** The badge of the role "Top". *)
Lemma renderCell_of_the_role_column_witness :
  let row : obj := {[ "Role" := VString "Top" ]} in
  "Top" ≠ "" ∧ Get row "Role" = VString "Top"
  ∧ renderCell (λ _, 0) "Role" row "Role"
    = Ok (Badge "role-badge role-top" (VString "Top")).
Proof.
  intros row.
  assert (H1 : "Top" ≠ "") by discriminate.
  assert (H2 : Get row "Role" = VString "Top") by reflexivity.
  split; [exact H1|]. split; [exact H2|].
  exact (proj1 (renderCell_of_the_role_column (λ _, 0) "Role" row) "Top" H1 H2).
Defined.

(** The birthday "abc" raises. *)
Lemma renderCell_of_other_columns_witness :
  let row : obj := {[ "Birthday" := VString "abc" ]} in
  "Birthday" ≠ "Role"
  ∧ ToBoolean (Get row "Birthday") = true ∧ isNaN (Get row "Birthday") = true
  ∧ renderCell (λ _, 0) "Role" row "Birthday" = Throw RangeError.
Proof.
  intros row.
  assert (H1 : "Birthday" ≠ "Role") by discriminate.
  assert (H2 : ToBoolean (Get row "Birthday") = true) by reflexivity.
  assert (H3 : isNaN (Get row "Birthday") = true) by reflexivity.
  split; [exact H1|]. split; [exact H2|]. split; [exact H3|].
  exact (proj2 (proj2 (renderCell_of_other_columns (λ _, 0) "Role" row "Birthday" H1))
           eq_refl H2 H3).
Defined.

(** Without rows the body is the one row spanning the column. *)
Lemma tableBody_has_a_row_for_each_sorted_row_witness :
  let v := {| roleKey := ""; teamKey := ""; regionKey := ""; roles := []; teams := [];
              regions := []; filtered := []; sortedData := [] |} in
  sortedData v = [] ∧ tableBody (λ _, 0) (dense ["Name"]) v = Ok (NoData 1).
Proof.
  intros v. assert (H : sortedData v = []) by reflexivity.
  split; [exact H|].
  exact (proj1 (tableBody_has_a_row_for_each_sorted_row (λ _, 0) (dense ["Name"]) v) H).
Defined.

(** A failed fetch shows its message. *)
Lemma App_after_the_retrieval_witness :
  "Failed to fetch" ≠ ""
  ∧ App (λ _, 0) (loadExcelFile_outcome (Raised "Failed to fetch") initial)
    = Ok (ErrorPage "Failed to fetch").
Proof.
  assert (H : "Failed to fetch" ≠ "") by discriminate.
  split; [exact H|].
  exact (proj1 (proj2 (proj2 (App_after_the_retrieval (λ _, 0)))) "Failed to fetch" H).
Defined.

(** The serials 59 and 60 in UTC. *)
Lemma parseGoogleSheetsDate_of_the_next_serial_witness :
  Z.abs 0 <= msPerDay ∧ 1 <= 59 < 100000000
  ∧ ∃ d, parseGoogleSheetsDate (λ _, 0) (VNumber (of_Z 59)) = Ok (render_date d)
         ∧ parseGoogleSheetsDate (λ _, 0) (VNumber (of_Z (59 + 1)))
           = Ok (render_date (next_day d)).
Proof.
  assert (H1 : Z.abs 0 <= msPerDay) by (unfold msPerDay; simpl; lia).
  assert (H2 : 1 <= 59 < 100000000) by lia.
  split; [exact H1|]. split; [exact H2|].
  exact (parseGoogleSheetsDate_of_the_next_serial (λ _, 0) 59 H1 H2).
Defined.

(** The text "0" in UTC. *)
Lemma parseGoogleSheetsDate_of_a_text_witness :
  "0" ≠ "" ∧ JSNumber.isZero (JSNumber.ofString "0") = true
  ∧ - msPerDay < 0 <= 0
  ∧ parseGoogleSheetsDate (λ _, 0) (VString "0") = Ok "1899-12-30".
Proof.
  assert (H1 : "0" ≠ "") by discriminate.
  assert (H2 : JSNumber.isZero (JSNumber.ofString "0") = true) by reflexivity.
  assert (H3 : - msPerDay < 0 <= 0) by (unfold msPerDay; lia).
  split; [exact H1|]. split; [exact H2|]. split; [exact H3|].
  exact (proj1 (proj2 (proj2 (parseGoogleSheetsDate_of_a_text (λ _, 0) "0" H1) H2)) H3).
Defined.

(** The sheet of Alice and Bob, in UTC. *)
Lemma a_loaded_sheet_shows_its_table_witness :
  let first := [VString "Name"; VString "Role"; VString "Birthday"] in
  let rest := [dense [VString "Alice"; VString "Support"; VString "44927"];
               dense [VString "Bob"; VString ""; VString ""]] in
  let st := loadExcelFile_outcome (Decoded (dense first :: rest)) initial in
  ∃ teamCount body,
    App (λ _, 0) st = Ok (TablePage (length (allData st)) teamCount body).
Proof.
  intros first rest st.
  set (alice := {[ "Name" := VString "Alice"; "Role" := VString "Support";
                   "Birthday" := VString "44927" ]} : obj).
  set (bob := {[ "Name" := VString "Bob"; "Role" := VString "";
                 "Birthday" := VString "" ]} : obj).
  assert (E : allData st = [alice; bob]) by (vm_compute; reflexivity).
  assert (Hk : facetKey "role" (headers st) = Ok "Role") by (vm_compute; reflexivity).
  assert (H0 : Z.abs 0 <= msPerDay) by (unfold msPerDay; simpl; lia).
  assert (H1 : ∀ r rk, r ∈ allData st → facetKey "role" (headers st) = Ok rk →
                 ToBoolean (Get r rk) = true → ∃ s, Get r rk = VString s).
  { intros r rk Hr Hrk. rewrite Hk in Hrk. injection Hrk as <-. rewrite E in Hr.
    apply elem_of_cons in Hr as [->|Hr];
      [intros _; exists "Support"; vm_compute; reflexivity|].
    apply elem_of_cons in Hr as [->|Hr];
      [intros _; exists ""; vm_compute; reflexivity|].
    apply elem_of_nil in Hr. destruct Hr. }
  assert (H2 : ∀ r, r ∈ allData st → ToBoolean (Get r "Birthday") = true →
                 ∃ n, 1 <= n <= 100000000 ∧ ToNumber (Get r "Birthday") = of_Z n).
  { intros r Hr. rewrite E in Hr.
    apply elem_of_cons in Hr as [->|Hr].
    { intros _. exists 44927. split; [lia | vm_compute; reflexivity]. }
    apply elem_of_cons in Hr as [->|Hr]; [intros Ht; vm_compute in Ht; discriminate Ht|].
    apply elem_of_nil in Hr. destruct Hr. }
  destruct (a_loaded_sheet_shows_its_table (λ _, 0) first rest H0 H1 H2)
    as (teamCount & body & Happ & _).
  exists teamCount, body. exact Happ.
Defined.

